(** * The JIT compilation engine: IR builder, optimisation passes, code
      generators and code cache

    A shallow embedding of
    - [core-projects/jit-compiler/src/jit_engine.c] (module [Engine]): the
      IR builder, [eliminate_dead_code], [constant_folding], the two
      back ends and [jit_function_compile];
    - [jit-compiler/jit_compiler.c] (module [Standalone]): the byte
      emitters and the round-robin register allocator of the standalone
      x86-64 JIT.

    Conventions of the embedding.
    - A fixed-width C integer is a [Z]; every place where the C code can
      wrap is written out with [wrap_u32] / [wrap_i64].
    - C [int] flags ([is_constant], [is_live], [initialized], [visited])
      are [bool].
    - A [next]-linked chain is a [list] in chain order; tail-append through
      [last_instruction] is [++ [_]].
    - [calloc] and [malloc] are taken to succeed.
    - An uninitialised member is an extra argument ([indet]) of the
      function that leaves it unset.
    - Emitted machine code is the list of bytes stored from the write
      cursor on, lowest address first (little-endian host for the 32- and
      64-bit stores). *)

From stdpp Require Import prelude gmap strings sorting.

Local Open Scope Z_scope.

(** ** Machine integers *)

(** [uint32_t] arithmetic. *)
Definition wrap_u32 (z : Z) : Z := z mod 2 ^ 32.

(** [int64_t] arithmetic as the target machines perform it: the result
    modulo 2^64, read back as a signed two's-complement number. *)
Definition wrap_i64 (z : Z) : Z := (z + 2 ^ 63) mod 2 ^ 64 - 2 ^ 63.

(** [int] arithmetic (32-bit two's complement). *)
Definition wrap_i32 (z : Z) : Z := (z + 2 ^ 31) mod 2 ^ 32 - 2 ^ 31.

(** A [uint8_t] store. *)
Definition wrap_u8 (z : Z) : Z := z mod 2 ^ 8.

(** The [n] low-order bytes of [z], lowest first. *)
Fixpoint le_bytes (n : nat) (z : Z) : list Z :=
  match n with
  | O => []
  | S n' => Z.land z 255 :: le_bytes n' (Z.shiftr z 8)
  end.

Module Engine.

(** ** Types of jit_engine.c *)

Inductive jit_arch_t := JIT_ARCH_X86_64 | JIT_ARCH_ARM64 | JIT_ARCH_RISCV64.

Inductive jit_type_t :=
  JIT_TYPE_INT32 | JIT_TYPE_INT64 | JIT_TYPE_FLOAT32 | JIT_TYPE_FLOAT64 | JIT_TYPE_PTR.

Inductive jit_opcode_t :=
  | JIT_OP_ADD | JIT_OP_SUB | JIT_OP_MUL | JIT_OP_DIV | JIT_OP_MOV
  | JIT_OP_LOAD | JIT_OP_STORE | JIT_OP_BRANCH | JIT_OP_BRANCH_IF
  | JIT_OP_CALL | JIT_OP_RETURN.

#[global] Instance jit_arch_eq_dec : EqDecision jit_arch_t.
Proof. solve_decision. Defined.
#[global] Instance jit_type_eq_dec : EqDecision jit_type_t.
Proof. solve_decision. Defined.
#[global] Instance jit_opcode_eq_dec : EqDecision jit_opcode_t.
Proof. solve_decision. Defined.

(** [struct jit_value]; values are copied by value into instructions. *)
Record jit_value_t := mk_value {
  value_id : Z;               (* uint32_t id *)
  value_type : jit_type_t;
  value_is_constant : bool;
  value_constant_value : Z    (* int64_t *)
}.

(** The address of a heap-allocated block, as stored in [target_block] and
    [else_block]; [None] is the null pointer. *)
Definition block_ptr := option N.

(** [struct jit_instruction]; the [next] link is the list structure. *)
Record jit_instruction_t := mk_inst {
  inst_opcode : jit_opcode_t;
  inst_dest : jit_value_t;
  inst_src1 : jit_value_t;
  inst_src2 : jit_value_t;
  inst_target_block : block_ptr;
  inst_else_block : block_ptr;
  inst_is_live : bool
}.

(** [struct jit_block]; [instructions] .. [last_instruction] is the list,
    [next] is the position in the function's block chain. *)
Record jit_block_t := mk_block {
  block_id : Z;                 (* uint32_t *)
  block_instructions : list jit_instruction_t;
  block_num_instructions : Z;   (* uint32_t *)
  block_visited : bool
}.

Record physical_reg_t := mk_physical_reg { virtual_reg : Z; in_use : bool }.

Record virtual_reg_t := mk_virtual_reg {
  physical_reg : Z; spilled : bool; start_pos : Z; end_pos : Z
}.

(** [reg_allocator_t]; a null table pointer is the empty list. *)
Record reg_allocator_t := mk_reg_allocator {
  virtual_regs : list virtual_reg_t;
  physical_regs : list physical_reg_t;
  num_virtual_regs : Z;
  num_physical_regs : Z
}.

(** [struct jit_function].  [func_blocks] is the chain that starts at
    [entry_block] and follows [next]; [func_current_block] is the position
    in that chain of the block [current_block] points to. *)
Record jit_function_t := mk_function {
  func_blocks : list jit_block_t;
  func_current_block : nat;
  func_num_blocks : Z;          (* uint32_t *)
  func_next_ssa_id : Z;         (* uint32_t *)
  func_reg_allocator : reg_allocator_t
}.

(** The state of the [code_cache] pointer. *)
Inductive mapping := NoMapping | MapFailed | Mapped.

(** [jit_context_t].  [ctx_code_ptr] is the write cursor as a byte offset
    from the start of the mapped region, so the region is the offsets
    [0 <= o < ctx_code_cache_size]. *)
Record jit_context_t := mk_context {
  ctx_target_arch : jit_arch_t;
  ctx_code_cache : mapping;
  ctx_code_ptr : Z;
  ctx_code_cache_size : Z;      (* size_t *)
  ctx_initialized : bool
}.

Definition JIT_CODE_CACHE_SIZE : Z := 1024 * 1024.
Definition JIT_SUCCESS : Z := 0.
Definition JIT_ERROR_MEMORY : Z := -1.

Record arch_info_t := mk_arch_info {
  arch : jit_arch_t;
  name : string;
  word_size : Z;
  num_registers : Z;
  stack_alignment : Z;
  register_names : list string
}.

Definition x86_64_registers : list string :=
  ["rax"; "rbx"; "rcx"; "rdx"; "rsi"; "rdi"; "rbp"; "rsp";
   "r8"; "r9"; "r10"; "r11"; "r12"; "r13"; "r14"; "r15"]%string.

Definition arm64_registers : list string :=
  ["x0"; "x1"; "x2"; "x3"; "x4"; "x5"; "x6"; "x7";
   "x8"; "x9"; "x10"; "x11"; "x12"; "x13"; "x14"; "x15";
   "x16"; "x17"; "x18"; "x19"; "x20"; "x21"; "x22"; "x23";
   "x24"; "x25"; "x26"; "x27"; "x28"; "x29"; "x30"; "sp"]%string.

Definition riscv_registers : list string :=
  ["x0"; "x1"; "x2"; "x3"; "x4"; "x5"; "x6"; "x7";
   "x8"; "x9"; "x10"; "x11"; "x12"; "x13"; "x14"; "x15";
   "x16"; "x17"; "x18"; "x19"; "x20"; "x21"; "x22"; "x23";
   "x24"; "x25"; "x26"; "x27"; "x28"; "x29"; "x30"; "x31"]%string.

Definition supported_archs : list arch_info_t :=
  [ mk_arch_info JIT_ARCH_X86_64 "x86_64" 8 16 16 x86_64_registers;
    mk_arch_info JIT_ARCH_ARM64 "arm64" 8 32 16 arm64_registers;
    mk_arch_info JIT_ARCH_RISCV64 "riscv64" 8 32 16 riscv_registers ].

(** The file-scope and function-scope statics of jit_engine.c. *)
Record jit_state := mk_state {
  g_jit_context : jit_context_t;
  current_arch : arch_info_t;
  block_id_counter : Z          (* static uint32_t in jit_block_create *)
}.

(** All-zero objects, as [memset] and [calloc] produce them. *)
Definition zero_context : jit_context_t :=
  mk_context JIT_ARCH_X86_64 NoMapping 0 0 false.
Definition zero_value : jit_value_t := mk_value 0 JIT_TYPE_INT32 false 0.

(** The state of the statics when the process starts. *)
Definition initial_state : jit_state :=
  mk_state zero_context
           (mk_arch_info JIT_ARCH_X86_64 "x86_64" 8 16 16 x86_64_registers) 0.

(** ** Initialisation *)

(** [jit_init]; [mmap_ok] says whether the mapping succeeded. *)
Definition jit_init (target_arch : jit_arch_t) (mmap_ok : bool)
    (st : jit_state) : Z * jit_state :=
  let cur :=
    match List.find (fun a => bool_decide (arch a = target_arch)) supported_archs with
    | Some a => a
    | None => current_arch st
    end in
  if mmap_ok then
    (JIT_SUCCESS,
     mk_state (mk_context target_arch Mapped 0 JIT_CODE_CACHE_SIZE true)
              cur (block_id_counter st))
  else
    (JIT_ERROR_MEMORY,
     mk_state (mk_context target_arch MapFailed 0 JIT_CODE_CACHE_SIZE false)
              cur (block_id_counter st)).

(** ** Blocks, functions and values *)

(** [jit_block_create]: the fresh block and the advanced static counter. *)
Definition jit_block_create (st : jit_state) : jit_block_t * jit_state :=
  (mk_block (block_id_counter st) [] 0 false,
   mk_state (g_jit_context st) (current_arch st)
            (wrap_u32 (block_id_counter st + 1))).

(** [jit_function_create]; [None] is the null result. *)
Definition jit_function_create (st : jit_state) : option jit_function_t * jit_state :=
  if negb (ctx_initialized (g_jit_context st)) then (None, st)
  else
    let '(entry, st') := jit_block_create st in
    (Some (mk_function [entry] 0%nat 1 1
             (mk_reg_allocator [] [] 0 (num_registers (current_arch st)))),
     st').

(** The part of [jit_value_create] that touches the function: it reads and
    post-increments [next_ssa_id].  [indet] is the content of the
    uninitialised [constant_value] member of the local [value]. *)
Definition value_create_at (next_ssa_id : Z) (type : jit_type_t) (indet : Z)
    : jit_value_t * Z :=
  (mk_value next_ssa_id type false indet, wrap_u32 (next_ssa_id + 1)).

Definition set_next_ssa_id (func : jit_function_t) (n : Z) : jit_function_t :=
  mk_function (func_blocks func) (func_current_block func)
              (func_num_blocks func) n (func_reg_allocator func).

Definition jit_value_create (func : jit_function_t) (type : jit_type_t) (indet : Z)
    : jit_value_t * jit_function_t :=
  let '(value, n) := value_create_at (func_next_ssa_id func) type indet in
  (value, set_next_ssa_id func n).

(** The counter-level part of [jit_value_create_constant]: both members the
    inner [jit_value_create] left unset are overwritten. *)
Definition value_create_constant_at (next_ssa_id : Z) (type : jit_type_t)
    (constant : Z) : jit_value_t * Z :=
  let '(value, n) := value_create_at next_ssa_id type 0 in
  (mk_value (value_id value) (value_type value) true constant, n).

Definition jit_value_create_constant (func : jit_function_t) (type : jit_type_t)
    (constant : Z) : jit_value_t * jit_function_t :=
  let '(value, n) := value_create_constant_at (func_next_ssa_id func) type constant in
  (value, set_next_ssa_id func n).

(** [add_instruction]: append to the block under the cursor.  None of the
    functions of the file moves the cursor off the entry block; a cursor
    beyond the chain would leave the chain as it is. *)
Definition block_append (b : jit_block_t) (inst : jit_instruction_t) : jit_block_t :=
  mk_block (block_id b)
           (match block_instructions b with
            | [] => [inst]
            | _ => block_instructions b ++ [inst]
            end)
           (wrap_u32 (block_num_instructions b + 1))
           (block_visited b).

Definition add_instruction (func : jit_function_t) (inst : jit_instruction_t)
    : jit_function_t :=
  mk_function (alter (fun b => block_append b inst) (func_current_block func)
                     (func_blocks func))
              (func_current_block func) (func_num_blocks func)
              (func_next_ssa_id func) (func_reg_allocator func).

(** ** IR builder *)

Definition binop_inst (op : jit_opcode_t) (result left right : jit_value_t)
    : jit_instruction_t :=
  mk_inst op result left right None None false.

Definition jit_insn_add (func : jit_function_t) (left right : jit_value_t)
    (indet : Z) : jit_value_t * jit_function_t :=
  let '(result, func) := jit_value_create func (value_type left) indet in
  (result, add_instruction func (binop_inst JIT_OP_ADD result left right)).

Definition jit_insn_sub (func : jit_function_t) (left right : jit_value_t)
    (indet : Z) : jit_value_t * jit_function_t :=
  let '(result, func) := jit_value_create func (value_type left) indet in
  (result, add_instruction func (binop_inst JIT_OP_SUB result left right)).

Definition jit_insn_mul (func : jit_function_t) (left right : jit_value_t)
    (indet : Z) : jit_value_t * jit_function_t :=
  let '(result, func) := jit_value_create func (value_type left) indet in
  (result, add_instruction func (binop_inst JIT_OP_MUL result left right)).

Definition jit_insn_load (func : jit_function_t) (address : jit_value_t)
    (indet : Z) : jit_value_t * jit_function_t :=
  let '(result, func) := jit_value_create func JIT_TYPE_PTR indet in
  (result,
   add_instruction func
     (mk_inst JIT_OP_LOAD result address zero_value None None false)).

Definition jit_insn_store (func : jit_function_t) (address value : jit_value_t)
    : jit_function_t :=
  add_instruction func
    (mk_inst JIT_OP_STORE zero_value address value None None false).

Definition jit_insn_branch (func : jit_function_t) (target : block_ptr)
    : jit_function_t :=
  add_instruction func
    (mk_inst JIT_OP_BRANCH zero_value zero_value zero_value target None false).

Definition jit_insn_branch_if (func : jit_function_t) (condition : jit_value_t)
    (true_block false_block : block_ptr) : jit_function_t :=
  add_instruction func
    (mk_inst JIT_OP_BRANCH_IF zero_value condition zero_value
             true_block false_block false).

Definition jit_insn_return (func : jit_function_t) (value : jit_value_t)
    : jit_function_t :=
  add_instruction func
    (mk_inst JIT_OP_RETURN zero_value value zero_value None None false).

(** ** Optimisation passes *)

Definition set_live (inst : jit_instruction_t) : jit_instruction_t :=
  mk_inst (inst_opcode inst) (inst_dest inst) (inst_src1 inst) (inst_src2 inst)
          (inst_target_block inst) (inst_else_block inst) true.

(** The guard of the marking statement in [eliminate_dead_code]. *)
Definition dce_marks (inst : jit_instruction_t) : bool :=
  negb (inst_is_live inst) &&
  (bool_decide (inst_opcode inst = JIT_OP_STORE) ||
   bool_decide (inst_opcode inst = JIT_OP_RETURN) ||
   bool_decide (inst_opcode inst = JIT_OP_CALL)).

(** The innermost loop: one walk over a block's instructions, threading
    the [changed] flag. *)
Fixpoint dce_insts (insts : list jit_instruction_t) (changed : bool)
    : list jit_instruction_t * bool :=
  match insts with
  | [] => ([], changed)
  | inst :: rest =>
      if dce_marks inst then
        let '(rest', changed') := dce_insts rest true in
        (set_live inst :: rest', changed')
      else
        let '(rest', changed') := dce_insts rest changed in
        (inst :: rest', changed')
  end.

Definition set_instructions (b : jit_block_t) (insts : list jit_instruction_t)
    : jit_block_t :=
  mk_block (block_id b) insts (block_num_instructions b) (block_visited b).

(** The middle loop: one walk over the block chain. *)
Fixpoint dce_blocks (blocks : list jit_block_t) (changed : bool)
    : list jit_block_t * bool :=
  match blocks with
  | [] => ([], changed)
  | b :: rest =>
      let '(insts', changed1) := dce_insts (block_instructions b) changed in
      let '(rest', changed2) := dce_blocks rest changed1 in
      (set_instructions b insts' :: rest', changed2)
  end.

Definition set_blocks (func : jit_function_t) (blocks : list jit_block_t)
    : jit_function_t :=
  mk_function blocks (func_current_block func) (func_num_blocks func)
              (func_next_ssa_id func) (func_reg_allocator func).

(** One iteration of the body of [while (changed)]: [changed = 0], then
    the walk. *)
Definition dce_pass (func : jit_function_t) : jit_function_t * bool :=
  let '(blocks', changed) := dce_blocks (func_blocks func) false in
  (set_blocks func blocks', changed).

(** The [while (changed)] loop, with a bound on the number of iterations;
    [None] means the bound was reached before the loop left. *)
Fixpoint dce_loop (fuel : nat) (func : jit_function_t) : option jit_function_t :=
  match fuel with
  | O => None
  | S fuel' =>
      let '(func', changed) := dce_pass func in
      if changed then dce_loop fuel' func' else Some func'
  end.

(** [eliminate_dead_code].  Two iterations always leave the loop
    ([dce_loop_two] below), so the fall-back branch is never taken. *)
Definition eliminate_dead_code (func : jit_function_t) : jit_function_t :=
  default func (dce_loop 2 func).

(** The body of the instruction loop of [constant_folding].  The only
    member of the function that [jit_value_create_constant] touches is
    [next_ssa_id], which is threaded here. *)
Definition fold_inst (next_ssa_id : Z) (inst : jit_instruction_t)
    : jit_instruction_t * Z :=
  if value_is_constant (inst_src1 inst) && value_is_constant (inst_src2 inst) then
    let folded (result : Z) :=
      let '(c, n) := value_create_constant_at next_ssa_id
                       (value_type (inst_dest inst)) result in
      (mk_inst JIT_OP_MOV (inst_dest inst) c
               (mk_value 0 (value_type (inst_src2 inst))
                         (value_is_constant (inst_src2 inst))
                         (value_constant_value (inst_src2 inst)))
               (inst_target_block inst) (inst_else_block inst)
               (inst_is_live inst), n) in
    match inst_opcode inst with
    | JIT_OP_ADD =>
        folded (wrap_i64 (value_constant_value (inst_src1 inst)
                          + value_constant_value (inst_src2 inst)))
    | JIT_OP_SUB =>
        folded (wrap_i64 (value_constant_value (inst_src1 inst)
                          - value_constant_value (inst_src2 inst)))
    | JIT_OP_MUL =>
        folded (wrap_i64 (value_constant_value (inst_src1 inst)
                          * value_constant_value (inst_src2 inst)))
    | _ => (inst, next_ssa_id)
    end
  else (inst, next_ssa_id).

Fixpoint fold_insts (next_ssa_id : Z) (insts : list jit_instruction_t)
    : list jit_instruction_t * Z :=
  match insts with
  | [] => ([], next_ssa_id)
  | inst :: rest =>
      let '(inst', n1) := fold_inst next_ssa_id inst in
      let '(rest', n2) := fold_insts n1 rest in
      (inst' :: rest', n2)
  end.

Fixpoint fold_blocks (next_ssa_id : Z) (blocks : list jit_block_t)
    : list jit_block_t * Z :=
  match blocks with
  | [] => ([], next_ssa_id)
  | b :: rest =>
      let '(insts', n1) := fold_insts next_ssa_id (block_instructions b) in
      let '(rest', n2) := fold_blocks n1 rest in
      (set_instructions b insts' :: rest', n2)
  end.

Definition constant_folding (func : jit_function_t) : jit_function_t :=
  let '(blocks', n) := fold_blocks (func_next_ssa_id func) (func_blocks func) in
  mk_function blocks' (func_current_block func) (func_num_blocks func) n
              (func_reg_allocator func).

(** ** Code generators *)

(** All instructions of the function in the order the generators walk
    them. *)
Definition all_instructions (func : jit_function_t) : list jit_instruction_t :=
  concat (map block_instructions (func_blocks func)).

(** The [switch] of [codegen_x86_64]: the bytes stored for one
    instruction. *)
Definition emit_x86_64 (inst : jit_instruction_t) : list Z :=
  match inst_opcode inst with
  | JIT_OP_ADD => [0x48; 0x01; 0xc0]
  | JIT_OP_SUB => [0x48; 0x29; 0xc0]
  | JIT_OP_MUL => [0x48; 0x0f; 0xaf; 0xc0]
  | JIT_OP_MOV =>
      if value_is_constant (inst_src1 inst) then
        [0x48; 0xb8] ++ le_bytes 8 (value_constant_value (inst_src1 inst))
      else [0x48; 0x89; 0xc0]
  | JIT_OP_RETURN => [0x48; 0x89; 0xec; 0x5d; 0xc3]
  | _ => []
  end.

Definition x86_64_prologue : list Z := [0x55; 0x48; 0x89; 0xe5].

(** [codegen_x86_64]: the bytes stored from [code_buffer] on; [*code_size]
    is their number. *)
Definition codegen_x86_64 (func : jit_function_t) : list Z :=
  x86_64_prologue ++
  concat (map (fun b => concat (map emit_x86_64 (block_instructions b)))
              (func_blocks func)).

(** The [switch] of [codegen_arm64]: the 32-bit words stored for one
    instruction. *)
Definition emit_arm64 (inst : jit_instruction_t) : list Z :=
  match inst_opcode inst with
  | JIT_OP_ADD => [0x8b000000]
  | JIT_OP_SUB => [0xcb000000]
  | JIT_OP_MUL => [0x9b007c00]
  | JIT_OP_RETURN => [0xa8c17bfd; 0xd65f03c0]
  | _ => []
  end.

Definition arm64_prologue : list Z := [0xa9bf7bfd; 0x910003fd].

(** [codegen_arm64]: the words stored from [code_buffer] on. *)
Definition codegen_arm64_words (func : jit_function_t) : list Z :=
  arm64_prologue ++
  concat (map (fun b => concat (map emit_arm64 (block_instructions b)))
              (func_blocks func)).

(** The same as bytes; [*code_size] is their number. *)
Definition codegen_arm64 (func : jit_function_t) : list Z :=
  concat (map (le_bytes 4) (codegen_arm64_words func)).

(** ** Compilation *)

(** What a call of [jit_function_compile] does: the pointer it returns
    (as an offset into the code cache; [None] is [NULL]), the statics and
    the function object afterwards, and the bytes it stored, the first of
    them at the offset the cursor had on entry. *)
Record compile_result := mk_result {
  res_code : option Z;
  res_state : jit_state;
  res_func : option jit_function_t;
  res_written : list Z
}.

Definition advance_code_ptr (st : jit_state) (code_size : Z) : jit_state :=
  let ctx := g_jit_context st in
  mk_state (mk_context (ctx_target_arch ctx) (ctx_code_cache ctx)
                       (ctx_code_ptr ctx + code_size)
                       (ctx_code_cache_size ctx) (ctx_initialized ctx))
           (current_arch st) (block_id_counter st).

(** [jit_function_compile]; [func = None] is the null argument. *)
Definition jit_function_compile (st : jit_state) (func : option jit_function_t)
    : compile_result :=
  match func with
  | None => mk_result None st None []
  | Some f =>
      if negb (ctx_initialized (g_jit_context st)) then
        mk_result None st (Some f) []
      else
        let f1 := eliminate_dead_code f in
        let f2 := constant_folding f1 in
        let code_start := ctx_code_ptr (g_jit_context st) in
        match ctx_target_arch (g_jit_context st) with
        | JIT_ARCH_X86_64 =>
            let code := codegen_x86_64 f2 in
            mk_result (Some code_start)
                      (advance_code_ptr st (Z.of_nat (length code)))
                      (Some f2) code
        | JIT_ARCH_ARM64 =>
            let code := codegen_arm64 f2 in
            mk_result (Some code_start)
                      (advance_code_ptr st (Z.of_nat (length code)))
                      (Some f2) code
        | JIT_ARCH_RISCV64 => mk_result None st (Some f2) []
        end
  end.

(** The offsets of the code cache the call stored to. *)
Definition written_offsets (st : jit_state) (r : compile_result) : list Z :=
  imap (fun i _ => ctx_code_ptr (g_jit_context st) + Z.of_nat i) (res_written r).

(** An offset inside the mapped region of the context. *)
Definition in_code_cache (st : jit_state) (o : Z) : Prop :=
  0 <= o < ctx_code_cache_size (g_jit_context st).

(** ** Teardown *)

(** [jit_cleanup]: the mapping is released and the context is zeroed; the
    other statics are not touched. *)
Definition jit_cleanup (st : jit_state) : jit_state :=
  mk_state zero_context (current_arch st) (block_id_counter st).

End Engine.

Module Standalone.

(** ** Types of jit_compiler.c *)

Definition CODE_BUFFER_SIZE : Z := 4096.

(** The enumerators of [x86_register_t]. *)
Definition RAX : Z := 0.
Definition RCX : Z := 1.
Definition RDX : Z := 2.
Definition RBX : Z := 3.
Definition RSP : Z := 4.
Definition RBP : Z := 5.
Definition RSI : Z := 6.
Definition RDI : Z := 7.
Definition R8 : Z := 8.
Definition R9 : Z := 9.
Definition R10 : Z := 10.
Definition R11 : Z := 11.
Definition R12 : Z := 12.
Definition R13 : Z := 13.
Definition R14 : Z := 14.
Definition R15 : Z := 15.

Inductive ir_opcode_t :=
  | IR_LOAD | IR_STORE | IR_ADD | IR_SUB | IR_MUL | IR_DIV
  | IR_CMP | IR_JMP | IR_JE | IR_JNE | IR_CALL | IR_RET
  | IR_PHI | IR_ALLOCA | IR_CAST.

(** [ssa_value_t], with the [data] union read and written through its
    [reg] member, the only one the register allocator and the ADD emitter
    use. *)
Record ssa_value_t := mk_ssa_value {
  ssa_id : Z;
  ssa_type : Z;
  data_reg : Z                  (* int *)
}.

(** Values live on the heap and instructions point to them: an address is
    an [N], the null pointer is [None], and the heap maps the addresses of
    the allocated values to their contents. *)
Definition value_ptr := option N.

(** [ssa_instruction_t]; the [next] link is the list structure. *)
Record ssa_instruction_t := mk_ssa_instruction {
  opcode : ir_opcode_t;
  dest : value_ptr;
  src1 : value_ptr;
  src2 : value_ptr
}.

(** [basic_block_t]; the predecessor and successor tables are never read
    by the functions below. *)
Record basic_block_t := mk_basic_block {
  id : Z;
  instructions : list ssa_instruction_t
}.

(** [jit_context_t]; [code_buffer] is the content of the mapped buffer,
    one entry per byte. *)
Record jit_context_t := mk_jit_context {
  blocks : list basic_block_t;
  block_count : Z;
  code_buffer : list Z;
  code_size : Z;                (* size_t *)
  next_ssa_id : Z;
  next_reg : Z                  (* int *)
}.

(** ** Emitters *)

Definition jit_emit_byte (ctx : jit_context_t) (byte : Z) : jit_context_t :=
  if bool_decide (code_size ctx < CODE_BUFFER_SIZE) then
    mk_jit_context (blocks ctx) (block_count ctx)
                   (<[Z.to_nat (code_size ctx) := wrap_u8 byte]> (code_buffer ctx))
                   (code_size ctx + 1) (next_ssa_id ctx) (next_reg ctx)
  else ctx.

Definition jit_emit_add_reg_reg (ctx : jit_context_t) (dst src : Z) : jit_context_t :=
  let ctx := jit_emit_byte ctx
    (Z.lor (Z.lor 0x48 (Z.land (Z.shiftr dst 3) 1))
           (Z.shiftl (Z.land (Z.shiftr src 3) 1) 2)) in
  let ctx := jit_emit_byte ctx 0x01 in
  jit_emit_byte ctx
    (Z.lor (Z.lor 0xC0 (Z.shiftl (Z.land src 7) 3)) (Z.land dst 7)).

(** ** Register allocation *)

(** [available_regs] and [reg_count] of [jit_allocate_registers]. *)
Definition available_regs : list Z :=
  [RAX; RCX; RDX; RBX; RSI; RDI; R8; R9; R10; R11; R12; R13; R14; R15].
Definition reg_count : Z := Z.of_nat (length available_regs).

Definition set_reg (v : ssa_value_t) (r : Z) : ssa_value_t :=
  mk_ssa_value (ssa_id v) (ssa_type v) r.

(** The body of the instruction loop: the heap and [ctx->next_reg] after
    one instruction.  The C remainder truncates, hence [Z.rem]; an index
    outside the table (possible only for a negative counter) and a
    destination that points to no allocated value are outside the model
    and read as register 0 and as no assignment. *)
Definition allocate_inst (st : gmap N ssa_value_t * Z) (inst : ssa_instruction_t)
    : gmap N ssa_value_t * Z :=
  let '(heap, nreg) := st in
  match dest inst with
  | None => st
  | Some p =>
      match heap !! p with
      | Some v =>
          if bool_decide (data_reg v = -1) then
            (<[p := set_reg v
                      (default 0 (available_regs !! Z.to_nat (Z.rem nreg reg_count)))]> heap,
             wrap_i32 (nreg + 1))
          else st
      | None => st
      end
  end.

(** The instructions the two nested loops visit, in visiting order. *)
Definition visited_instructions (ctx : jit_context_t) : list ssa_instruction_t :=
  concat (map instructions (take (Z.to_nat (block_count ctx)) (blocks ctx))).

(** [jit_allocate_registers]: the heap and the context afterwards. *)
Definition jit_allocate_registers (heap : gmap N ssa_value_t) (ctx : jit_context_t)
    : gmap N ssa_value_t * jit_context_t :=
  let '(heap', nreg) :=
    foldl allocate_inst (heap, next_reg ctx) (visited_instructions ctx) in
  (heap', mk_jit_context (blocks ctx) (block_count ctx) (code_buffer ctx)
                         (code_size ctx) (next_ssa_id ctx) nreg).

(** ** Context creation and the other emitters *)

(** [jit_create_context]: a zero-filled anonymous mapping of
    [CODE_BUFFER_SIZE] bytes and zeroed counters; [blocks] is left
    uninitialised by [malloc] ([indet_blocks]). *)
Definition jit_create_context (indet_blocks : list basic_block_t) : jit_context_t :=
  mk_jit_context indet_blocks 0 (replicate (Z.to_nat CODE_BUFFER_SIZE) 0) 0 0 0.

(** [jit_emit_dword]; the argument is converted to [uint32_t] on entry. *)
Definition jit_emit_dword (ctx : jit_context_t) (dword : Z) : jit_context_t :=
  let dword := wrap_u32 dword in
  let ctx := jit_emit_byte ctx (Z.land dword 0xFF) in
  let ctx := jit_emit_byte ctx (Z.land (Z.shiftr dword 8) 0xFF) in
  let ctx := jit_emit_byte ctx (Z.land (Z.shiftr dword 16) 0xFF) in
  jit_emit_byte ctx (Z.land (Z.shiftr dword 24) 0xFF).

(** [jit_emit_qword]; the argument is converted to [uint64_t] on entry. *)
Definition jit_emit_qword (ctx : jit_context_t) (qword : Z) : jit_context_t :=
  let qword := qword mod 2 ^ 64 in
  let ctx := jit_emit_dword ctx (Z.land qword 0xFFFFFFFF) in
  jit_emit_dword ctx (Z.land (Z.shiftr qword 32) 0xFFFFFFFF).

(** [jit_emit_mov_reg_imm] ([imm] is an [int64_t]). *)
Definition jit_emit_mov_reg_imm (ctx : jit_context_t) (reg imm : Z) : jit_context_t :=
  let ctx := jit_emit_byte ctx (Z.lor 0x48 (Z.land (Z.shiftr reg 3) 1)) in
  let ctx := jit_emit_byte ctx (Z.lor 0xB8 (Z.land reg 7)) in
  jit_emit_qword ctx imm.

Definition jit_emit_ret (ctx : jit_context_t) : jit_context_t :=
  jit_emit_byte ctx 0xC3.

(** ** The passes that only report *)

(** [jit_eliminate_dead_code] and [jit_constant_propagation] walk the
    blocks and print what they find; neither writes to the context, to an
    instruction or to a value. *)
Definition jit_eliminate_dead_code (ctx : jit_context_t) : jit_context_t := ctx.
Definition jit_constant_propagation (ctx : jit_context_t) : jit_context_t := ctx.

(** ** The add function *)

Definition set_code_size (ctx : jit_context_t) (n : Z) : jit_context_t :=
  mk_jit_context (blocks ctx) (block_count ctx) (code_buffer ctx) n
                 (next_ssa_id ctx) (next_reg ctx).

(** [jit_compile_add_function].  [a1], [a2], [a3] are the addresses
    [malloc] returns for [arg1], [arg2] and [result], and [t1], [t2], [t3]
    the contents of their [type] members, which are never written.  The
    result is the heap and the context afterwards; the function pointer
    returned is the start of the code buffer. *)
Definition jit_compile_add_function (heap : gmap N ssa_value_t)
    (ctx : jit_context_t) (a1 a2 a3 : N) (t1 t2 t3 : Z)
    : gmap N ssa_value_t * jit_context_t :=
  let id1 := next_ssa_id ctx in
  let id2 := wrap_i32 (id1 + 1) in
  let id3 := wrap_i32 (id2 + 1) in
  let heap := <[a1 := mk_ssa_value id1 t1 RDI]> heap in
  let heap := <[a2 := mk_ssa_value id2 t2 RSI]> heap in
  let heap := <[a3 := mk_ssa_value id3 t3 RAX]> heap in
  let block :=
    mk_basic_block 0
      [mk_ssa_instruction IR_ADD (Some a3) (Some a1) (Some a2);
       mk_ssa_instruction IR_RET None (Some a3) None] in
  let ctx := mk_jit_context [block] 1 (code_buffer ctx) (code_size ctx)
                            (wrap_i32 (id3 + 1)) (next_reg ctx) in
  let ctx := jit_eliminate_dead_code ctx in
  let ctx := jit_constant_propagation ctx in
  let '(heap, ctx) := jit_allocate_registers heap ctx in
  let ctx := set_code_size ctx 0 in
  let ctx := jit_emit_byte ctx 0x55 in
  let ctx := jit_emit_byte ctx 0x48 in
  let ctx := jit_emit_byte ctx 0x89 in
  let ctx := jit_emit_byte ctx 0xE5 in
  let ctx := jit_emit_byte ctx 0x48 in
  let ctx := jit_emit_byte ctx 0x89 in
  let ctx := jit_emit_byte ctx 0xF8 in
  let ctx := jit_emit_byte ctx 0x48 in
  let ctx := jit_emit_byte ctx 0x01 in
  let ctx := jit_emit_byte ctx 0xF0 in
  let ctx := jit_emit_byte ctx 0x5D in
  let ctx := jit_emit_ret ctx in
  (heap, ctx).

End Standalone.

Import Engine.

(** * Vocabulary of the statements *)

(** ** Constant folding *)

(** The instructions the pass folds: an arithmetic opcode and two constant
    operands. *)
Definition is_arith (op : jit_opcode_t) : bool :=
  match op with
  | JIT_OP_ADD | JIT_OP_SUB | JIT_OP_MUL => true
  | _ => false
  end.

Definition foldable (inst : jit_instruction_t) : bool :=
  is_arith (inst_opcode inst) &&
  value_is_constant (inst_src1 inst) && value_is_constant (inst_src2 inst).

(** One post-increment of a [uint32_t] counter. *)
Definition bump (n : Z) : Z := wrap_u32 (n + 1).

(** What a folded instruction looks like: a [Mov] of a constant with id
    [fresh] and value [result], typed like the destination; the second
    operand keeps its members except for the id, which is reset to 0. *)
Definition folded_to (old : jit_instruction_t) (fresh result : Z)
    : jit_instruction_t :=
  mk_inst JIT_OP_MOV (inst_dest old)
          (mk_value fresh (value_type (inst_dest old)) true result)
          (mk_value 0 (value_type (inst_src2 old))
                    (value_is_constant (inst_src2 old))
                    (value_constant_value (inst_src2 old)))
          (inst_target_block old) (inst_else_block old) (inst_is_live old).

Definition count_foldable (insts : list jit_instruction_t) : nat :=
  length (List.filter foldable insts).

(** ** Example programs, built with the IR builder *)

(** The statics after a successful [jit_init] for the given target in a
    fresh process. *)
Definition ready_state (target : jit_arch_t) : jit_state :=
  (jit_init target true initial_state).2.

(** [f() = (3 + 4) * 2], entirely from constants, followed by the return
    of the product.  The builder calls are, in order:
    [jit_function_create], the constants 3 and 4, [jit_insn_add], the
    constant 2, [jit_insn_mul], [jit_insn_return].  In this and the other
    examples the uninitialised [constant_value] of a non-constant value is
    taken to hold 0; no pass and no code generator reads it. *)
Definition build_scenario2 (st : jit_state) : option jit_function_t :=
  match jit_function_create st with
  | (Some f, _) =>
      let '(c3, f) := jit_value_create_constant f JIT_TYPE_INT64 3 in
      let '(c4, f) := jit_value_create_constant f JIT_TYPE_INT64 4 in
      let '(s, f) := jit_insn_add f c3 c4 0 in
      let '(c2, f) := jit_value_create_constant f JIT_TYPE_INT64 2 in
      let '(m, f) := jit_insn_mul f s c2 0 in
      Some (jit_insn_return f m)
  | (None, _) => None
  end.

(** The same function object written out. *)
Definition scenario2_add : jit_instruction_t :=
  mk_inst JIT_OP_ADD (mk_value 3 JIT_TYPE_INT64 false 0)
          (mk_value 1 JIT_TYPE_INT64 true 3) (mk_value 2 JIT_TYPE_INT64 true 4)
          None None false.
Definition scenario2_mul : jit_instruction_t :=
  mk_inst JIT_OP_MUL (mk_value 5 JIT_TYPE_INT64 false 0)
          (mk_value 3 JIT_TYPE_INT64 false 0) (mk_value 4 JIT_TYPE_INT64 true 2)
          None None false.
Definition scenario2_return : jit_instruction_t :=
  mk_inst JIT_OP_RETURN zero_value (mk_value 5 JIT_TYPE_INT64 false 0) zero_value
          None None false.
Definition scenario2 : jit_function_t :=
  mk_function [mk_block 0 [scenario2_add; scenario2_mul; scenario2_return] 3 false]
              0%nat 1 6 (mk_reg_allocator [] [] 0 16).

(** ** Dead-code elimination *)

(** Opcodes with an observable side effect, the seeds of liveness. *)
Definition side_effect (op : jit_opcode_t) : bool :=
  match op with
  | JIT_OP_STORE | JIT_OP_RETURN | JIT_OP_CALL => true
  | _ => false
  end.

(** What the pass does to one instruction. *)
Definition mark (inst : jit_instruction_t) : jit_instruction_t :=
  if dce_marks inst then set_live inst else inst.

Definition mark_block (b : jit_block_t) : jit_block_t :=
  set_instructions b (map mark (block_instructions b)).

Definition mark_func (func : jit_function_t) : jit_function_t :=
  set_blocks func (map mark_block (func_blocks func)).

(** [consumer] uses the destination of [producer] as an operand: the
    producer has a destination (a non-zero id, since ids start at 1 and
    [calloc] leaves 0 in an instruction without destination) and one of
    the consumer's operands carries that id. *)
Definition consumes (consumer producer : jit_instruction_t) : Prop :=
  value_id (inst_dest producer) ≠ 0 ∧
  (value_id (inst_src1 consumer) = value_id (inst_dest producer) ∨
   value_id (inst_src2 consumer) = value_id (inst_dest producer)).

(** [f(a, b) = a + b] with one [Return]: [jit_function_create], two
    parameter values, [jit_insn_add], [jit_insn_return]. *)
Definition build_scenario1 (st : jit_state) : option jit_function_t :=
  match jit_function_create st with
  | (Some f, _) =>
      let '(a, f) := jit_value_create f JIT_TYPE_INT64 0 in
      let '(b, f) := jit_value_create f JIT_TYPE_INT64 0 in
      let '(s, f) := jit_insn_add f a b 0 in
      Some (jit_insn_return f s)
  | (None, _) => None
  end.

Definition scenario1_add : jit_instruction_t :=
  mk_inst JIT_OP_ADD (mk_value 3 JIT_TYPE_INT64 false 0)
          (mk_value 1 JIT_TYPE_INT64 false 0) (mk_value 2 JIT_TYPE_INT64 false 0)
          None None false.
Definition scenario1_return : jit_instruction_t :=
  mk_inst JIT_OP_RETURN zero_value (mk_value 3 JIT_TYPE_INT64 false 0) zero_value
          None None false.
Definition scenario1 : jit_function_t :=
  mk_function [mk_block 0 [scenario1_add; scenario1_return] 2 false]
              0%nat 1 4 (mk_reg_allocator [] [] 0 16).

(** The live instructions of a function, in program order. *)
Definition live_instructions (func : jit_function_t) : list jit_instruction_t :=
  List.filter inst_is_live (all_instructions func).

(** The function object as the two passes of a compilation leave it, just
    before code generation. *)
Definition optimised (func : jit_function_t) : jit_function_t :=
  constant_folding (eliminate_dead_code func).

(** ** Structure of the IR *)

Definition with_live (inst : jit_instruction_t) (live : bool) : jit_instruction_t :=
  mk_inst (inst_opcode inst) (inst_dest inst) (inst_src1 inst) (inst_src2 inst)
          (inst_target_block inst) (inst_else_block inst) live.

(** The only change dead-code elimination makes to an instruction. *)
Definition liveness_set (old new : jit_instruction_t) : Prop :=
  new = old ∨ new = with_live old true.

(** The only change constant folding makes to an instruction: it stays
    where it is and keeps its destination, branch targets and liveness. *)
Definition folded_in_place (old new : jit_instruction_t) : Prop :=
  new = old ∨ ∃ fresh result, new = folded_to old fresh result.

(** Two blocks with the same id, instruction counter and flag whose
    instruction chains have the same length and are related position by
    position. *)
Definition same_block (rel : jit_instruction_t → jit_instruction_t → Prop)
    (old new : jit_block_t) : Prop :=
  block_id new = block_id old ∧
  block_num_instructions new = block_num_instructions old ∧
  block_visited new = block_visited old ∧
  Forall2 rel (block_instructions old) (block_instructions new).

(** The opcodes with a [case] in the [switch] of each back end. *)
Definition has_x86_64_case (op : jit_opcode_t) : bool :=
  match op with
  | JIT_OP_ADD | JIT_OP_SUB | JIT_OP_MUL | JIT_OP_MOV | JIT_OP_RETURN => true
  | _ => false
  end.

Definition has_arm64_case (op : jit_opcode_t) : bool :=
  match op with
  | JIT_OP_ADD | JIT_OP_SUB | JIT_OP_MUL | JIT_OP_RETURN => true
  | _ => false
  end.

(** A function whose only instruction is a [Store]:
    [jit_function_create], an address and a value, [jit_insn_store]. *)
Definition build_store_only (st : jit_state) : option jit_function_t :=
  match jit_function_create st with
  | (Some f, _) =>
      let '(a, f) := jit_value_create f JIT_TYPE_PTR 0 in
      let '(v, f) := jit_value_create f JIT_TYPE_INT64 0 in
      Some (jit_insn_store f a v)
  | (None, _) => None
  end.

Definition store_only_inst : jit_instruction_t :=
  mk_inst JIT_OP_STORE zero_value (mk_value 1 JIT_TYPE_PTR false 0)
          (mk_value 2 JIT_TYPE_INT64 false 0) None None false.
Definition store_only : jit_function_t :=
  mk_function [mk_block 0 [store_only_inst] 1 false]
              0%nat 1 3 (mk_reg_allocator [] [] 0 16).

(** ** Sequences of calls that create blocks *)

(** The calls of the public interface that read or write the statics the
    block counter lives among. *)
Inductive call :=
  | CallInit (target : jit_arch_t) (mmap_ok : bool)
  | CallBlockCreate
  | CallFunctionCreate.

(** One call: the id of the block it created, if it created one, and the
    statics afterwards. *)
Definition run_call (st : jit_state) (c : call) : option Z * jit_state :=
  match c with
  | CallInit target mmap_ok => (None, (jit_init target mmap_ok st).2)
  | CallBlockCreate =>
      let '(b, st') := jit_block_create st in (Some (block_id b), st')
  | CallFunctionCreate =>
      match jit_function_create st with
      | (Some f, st') => (block_id <$> head (func_blocks f), st')
      | (None, st') => (None, st')
      end
  end.

(** A sequence of calls: the ids of the blocks created, in order of
    creation, and the statics afterwards. *)
Fixpoint run_calls (st : jit_state) (cs : list call) : list Z * jit_state :=
  match cs with
  | [] => ([], st)
  | c :: rest =>
      let '(oid, st1) := run_call st c in
      let '(ids, st2) := run_calls st1 rest in
      (from_option (λ i, [i]) [] oid ++ ids, st2)
  end.

(** The statics after [n] calls of [jit_block_create]. *)
Definition create_blocks (n : N) (st : jit_state) : jit_state :=
  N.iter n (λ s, (jit_block_create s).2) st.

(** The id of the block that the call of [jit_block_create] after [n]
    earlier ones returns, in a fresh process. *)
Definition nth_block_id (n : N) : Z :=
  block_id (jit_block_create (create_blocks n initial_state)).1.

(** ** Compilation *)

(** The function object [jit_function_create] returns in a fresh process
    initialised for x86_64: an empty entry block. *)
Definition empty_function : jit_function_t :=
  mk_function [mk_block 0 [] 0 false] 0%nat 1 1 (mk_reg_allocator [] [] 0 16).

(** One more compilation of the same function object: the statics and
    the function object afterwards. *)
Definition compile_step (sf : jit_state * jit_function_t)
    : jit_state * jit_function_t :=
  let r := jit_function_compile sf.1 (Some sf.2) in
  (res_state r, default sf.2 (res_func r)).

(** [n] compilations in a row. *)
Definition compile_repeatedly (n : N) (sf : jit_state * jit_function_t)
    : jit_state * jit_function_t :=
  N.iter n compile_step sf.

(** The code generator the dispatch in [jit_function_compile] selects;
    [None] for a target without back end. *)
Definition codegen_for (target : jit_arch_t) : option (jit_function_t → list Z) :=
  match target with
  | JIT_ARCH_X86_64 => Some codegen_x86_64
  | JIT_ARCH_ARM64 => Some codegen_arm64
  | JIT_ARCH_RISCV64 => None
  end.

(** The register allocator of a function records an assignment: its
    table of virtual registers has an entry. *)
Definition records_assignment (func : jit_function_t) : Prop :=
  ∃ k vr, virtual_regs (func_reg_allocator func) !! k = Some vr.

(** ** Register allocation of the standalone JIT *)

(** A value that has no register yet: [data.reg == -1]. *)
Definition unassigned (heap : gmap N Standalone.ssa_value_t) (p : N) : Prop :=
  Standalone.data_reg <$> heap !! p = Some (-1).

#[global] Instance unassigned_dec heap p : Decision (unassigned heap p).
Proof. unfold unassigned. apply _. Defined.

(** Each element once, at the place of its first occurrence. *)
Fixpoint dedup (l : list N) : list N :=
  match l with
  | [] => []
  | x :: rest => x :: filter (λ y, y ≠ x) (dedup rest)
  end.

(** The values that have to get a register: the destinations of the
    instructions, in program order, that have no register yet, each
    value once. *)
Definition allocation_targets (heap : gmap N Standalone.ssa_value_t)
    (insts : list Standalone.ssa_instruction_t) : list N :=
  dedup (filter (unassigned heap) (omap Standalone.dest insts)).

(** Round-robin choice number [k] among the available registers. *)
Definition round_robin (k : Z) : Z :=
  default 0 (Standalone.available_regs
               !! Z.to_nat (k `mod` Z.of_nat (length Standalone.available_regs))).

(** A heap and a context for the allocator: three instructions; the
    first two share their destination, the third one's destination got
    [RDI] beforehand; the counter stands at 13. *)
Definition example_heap : gmap N Standalone.ssa_value_t :=
  {[ 10%N := Standalone.mk_ssa_value 0 0 (-1);
     11%N := Standalone.mk_ssa_value 1 0 Standalone.RDI;
     12%N := Standalone.mk_ssa_value 2 0 (-1) ]}.

Definition example_ctx : Standalone.jit_context_t :=
  Standalone.mk_jit_context
    [Standalone.mk_basic_block 0
       [Standalone.mk_ssa_instruction Standalone.IR_ADD (Some 10%N) (Some 11%N) (Some 11%N);
        Standalone.mk_ssa_instruction Standalone.IR_ADD (Some 10%N) (Some 10%N) (Some 11%N);
        Standalone.mk_ssa_instruction Standalone.IR_LOAD (Some 11%N) None None;
        Standalone.mk_ssa_instruction Standalone.IR_ADD (Some 12%N) (Some 10%N) (Some 11%N);
        Standalone.mk_ssa_instruction Standalone.IR_RET None (Some 12%N) None]]
    1 (replicate 4096 0) 0 3 13.

(** ** Code emission *)

(** An [Add] whose destination and operands are other values than those of
    [scenario1_add]. *)
Definition other_add : jit_instruction_t :=
  mk_inst JIT_OP_ADD (mk_value 6 JIT_TYPE_INT64 false 0)
          (mk_value 4 JIT_TYPE_INT64 false 0) (mk_value 5 JIT_TYPE_INT64 false 0)
          None None false.

(** The bytes of the code buffer between the write positions of two
    contexts of the standalone JIT. *)
Definition emitted_bytes (before after : Standalone.jit_context_t) : list Z :=
  take (Z.to_nat (Standalone.code_size after - Standalone.code_size before))
       (drop (Z.to_nat (Standalone.code_size before)) (Standalone.code_buffer after)).

(** The three bytes [jit_emit_add_reg_reg] passes to [jit_emit_byte]. *)
Definition add_reg_reg_bytes (dst src : Z) : list Z :=
  [wrap_u8 (Z.lor (Z.lor 0x48 (Z.land (Z.shiftr dst 3) 1))
                  (Z.shiftl (Z.land (Z.shiftr src 3) 1) 2));
   wrap_u8 0x01;
   wrap_u8 (Z.lor (Z.lor 0xC0 (Z.shiftl (Z.land src 7) 3)) (Z.land dst 7))].

(** A check over all pairs of register numbers. *)
Definition all_register_pairs (P : Z → Z → bool) : bool :=
  forallb (λ d, forallb (P d) (seqZ 0 16)) (seqZ 0 16).

(** ** More vocabulary: bytes, sizes, built functions, emitters *)

(** The number a list of bytes denotes, lowest byte first. *)
Fixpoint le_decode (bytes : list Z) : Z :=
  match bytes with
  | [] => 0
  | b :: rest => b + 256 * le_decode rest
  end.

(** An instruction the dead-code pass has yet to mark. *)
Definition unmarked_seed (inst : jit_instruction_t) : Prop :=
  inst_is_live inst = false ∧ side_effect (inst_opcode inst) = true.

(** The largest code a back end can generate for a function of [n]
    instructions: prologue plus the longest code of one instruction
    ([mov rax, imm64] on x86_64, the two-word epilogue on ARM64). *)
Definition code_size_bound (target : jit_arch_t) (n : nat) : Z :=
  match target with
  | JIT_ARCH_X86_64 => 4 + 10 * Z.of_nat n
  | JIT_ARCH_ARM64 => 8 + 8 * Z.of_nat n
  | JIT_ARCH_RISCV64 => 0
  end.

(** The function objects a client can obtain through the interface:
    created by [jit_function_create], extended by the value and
    instruction builders, rewritten by the passes of a compilation.  The
    index counts the values drawn from the SSA counter so far. *)
Inductive built : nat → jit_function_t → Prop :=
  | built_create st f :
      (jit_function_create st).1 = Some f → built 0 f
  | built_value n f type indet :
      built n f → built (S n) (jit_value_create f type indet).2
  | built_constant n f type c :
      built n f → built (S n) (jit_value_create_constant f type c).2
  | built_add n f left right indet :
      built n f → built (S n) (jit_insn_add f left right indet).2
  | built_sub n f left right indet :
      built n f → built (S n) (jit_insn_sub f left right indet).2
  | built_mul n f left right indet :
      built n f → built (S n) (jit_insn_mul f left right indet).2
  | built_load n f address indet :
      built n f → built (S n) (jit_insn_load f address indet).2
  | built_store n f address value :
      built n f → built n (jit_insn_store f address value)
  | built_branch n f target :
      built n f → built n (jit_insn_branch f target)
  | built_branch_if n f condition true_block false_block :
      built n f → built n (jit_insn_branch_if f condition true_block false_block)
  | built_return n f value :
      built n f → built n (jit_insn_return f value)
  | built_compiled n f :
      built n f →
      built (count_foldable (all_instructions f) + n) (optimised f).

(** The ids of the destinations of the instructions that have one, in
    program order. *)
Definition dest_ids (func : jit_function_t) : list Z :=
  filter (λ i, i ≠ 0) (map (λ inst, value_id (inst_dest inst)) (all_instructions func)).

(** The shape every function object of the interface has: one block, the
    entry block, which is also the block under the cursor, with an
    instruction counter that agrees with its chain. *)
Definition entry_block_only (func : jit_function_t) : Prop :=
  ∃ b, func_blocks func = [b] ∧
       func_current_block func = 0%nat ∧
       func_num_blocks func = 1 ∧
       block_num_instructions b
         = Z.of_nat (length (block_instructions b)) mod 2 ^ 32.

(** ** Sequences of calls on one function object *)

(** The constants the instruction loop of [constant_folding] creates with
    [jit_value_create_constant], in the order of their creation: the
    first operand each folded instruction is given. *)
Fixpoint fold_constants (next_ssa_id : Z) (insts : list jit_instruction_t)
    : list jit_value_t :=
  match insts with
  | [] => []
  | inst :: rest =>
      let '(inst', n1) := fold_inst next_ssa_id inst in
      (if foldable inst then [inst_src1 inst'] else []) ++ fold_constants n1 rest
  end.

(** The calls of the interface that act on a function object.  A
    compilation without initialised context leaves the function object as
    it is; [CompilePasses] is what every other compilation does to it. *)
Inductive builder_call :=
  | ValueCreate (type : jit_type_t) (indet : Z)
  | ValueCreateConstant (type : jit_type_t) (constant : Z)
  | InsnAdd (left right : jit_value_t) (indet : Z)
  | InsnSub (left right : jit_value_t) (indet : Z)
  | InsnMul (left right : jit_value_t) (indet : Z)
  | InsnLoad (address : jit_value_t) (indet : Z)
  | InsnStore (address value : jit_value_t)
  | InsnBranch (target : block_ptr)
  | InsnBranchIf (condition : jit_value_t) (true_block false_block : block_ptr)
  | InsnReturn (value : jit_value_t)
  | CompilePasses.

(** One call: the values it draws from the SSA counter of the function
    (the value it returns, or the constants of the folds), and the
    function object afterwards. *)
Definition run_builder_call (func : jit_function_t) (c : builder_call)
    : list jit_value_t * jit_function_t :=
  match c with
  | ValueCreate type indet =>
      let '(v, f) := jit_value_create func type indet in ([v], f)
  | ValueCreateConstant type constant =>
      let '(v, f) := jit_value_create_constant func type constant in ([v], f)
  | InsnAdd op1 op2 indet =>
      let '(v, f) := jit_insn_add func op1 op2 indet in ([v], f)
  | InsnSub op1 op2 indet =>
      let '(v, f) := jit_insn_sub func op1 op2 indet in ([v], f)
  | InsnMul op1 op2 indet =>
      let '(v, f) := jit_insn_mul func op1 op2 indet in ([v], f)
  | InsnLoad address indet =>
      let '(v, f) := jit_insn_load func address indet in ([v], f)
  | InsnStore address value => ([], jit_insn_store func address value)
  | InsnBranch target => ([], jit_insn_branch func target)
  | InsnBranchIf condition true_block false_block =>
      ([], jit_insn_branch_if func condition true_block false_block)
  | InsnReturn value => ([], jit_insn_return func value)
  | CompilePasses =>
      let f1 := eliminate_dead_code func in
      (fold_constants (func_next_ssa_id f1) (all_instructions f1),
       constant_folding f1)
  end.

(** A sequence of calls: the values drawn from the counter, in the order
    they were drawn, and the function object afterwards. *)
Fixpoint run_builder_calls (func : jit_function_t) (cs : list builder_call)
    : list jit_value_t * jit_function_t :=
  match cs with
  | [] => ([], func)
  | c :: rest =>
      let '(vs, f1) := run_builder_call func c in
      let '(ws, f2) := run_builder_calls f1 rest in
      (vs ++ ws, f2)
  end.

(** The function object after [n] further calls of [jit_value_create]. *)
Definition create_values (n : N) (func : jit_function_t) : jit_function_t :=
  N.iter n (λ f, (jit_value_create f JIT_TYPE_INT64 0).2) func.

(** In a fresh process initialised for x86_64: [jit_function_create], an
    address drawn with [jit_value_create], and one [jit_insn_load] from
    it. *)
Definition load_address : jit_value_t :=
  (jit_value_create empty_function JIT_TYPE_PTR 0).1.

Definition load_once : jit_value_t * jit_function_t :=
  jit_insn_load (jit_value_create empty_function JIT_TYPE_PTR 0).2 load_address 0.

(** A second [jit_insn_load] from the same address after [n] calls of
    [jit_value_create] in between. *)
Definition load_again (n : N) : jit_value_t * jit_function_t :=
  jit_insn_load (create_values n load_once.2) load_address 0.

(** A context of the standalone JIT whose code buffer is mapped and whose
    write position is inside it or at its end. *)
Definition buffer_ok (ctx : Standalone.jit_context_t) : Prop :=
  length (Standalone.code_buffer ctx) = Z.to_nat Standalone.CODE_BUFFER_SIZE ∧
  0 <= Standalone.code_size ctx <= Standalone.CODE_BUFFER_SIZE.

(** A sequence of [jit_emit_byte] calls. *)
Definition emit_all (ctx : Standalone.jit_context_t) (bytes : list Z)
    : Standalone.jit_context_t :=
  foldl Standalone.jit_emit_byte ctx bytes.

(** What an emission of [k] bytes may change: the write position, which
    moves forward by [k] but not beyond the end of the buffer, and the
    bytes between the old and the new write position. *)
Definition emits_at_most (k : Z) (ctx ctx' : Standalone.jit_context_t) : Prop :=
  buffer_ok ctx' ∧
  Standalone.code_size ctx'
    = Z.min (Standalone.code_size ctx + k) Standalone.CODE_BUFFER_SIZE ∧
  (∀ i : nat,
     Z.of_nat i < Standalone.code_size ctx ∨ Standalone.code_size ctx' <= Z.of_nat i →
     Standalone.code_buffer ctx' !! i = Standalone.code_buffer ctx !! i) ∧
  Standalone.blocks ctx' = Standalone.blocks ctx ∧
  Standalone.block_count ctx' = Standalone.block_count ctx ∧
  Standalone.next_ssa_id ctx' = Standalone.next_ssa_id ctx ∧
  Standalone.next_reg ctx' = Standalone.next_reg ctx.

(** The bytes each emitter hands to [jit_emit_byte], in order. *)
Definition dword_bytes (dword : Z) : list Z :=
  let d := wrap_u32 dword in
  [Z.land d 0xFF; Z.land (Z.shiftr d 8) 0xFF;
   Z.land (Z.shiftr d 16) 0xFF; Z.land (Z.shiftr d 24) 0xFF].

Definition qword_bytes (qword : Z) : list Z :=
  let q := qword mod 2 ^ 64 in
  dword_bytes (Z.land q 0xFFFFFFFF) ++ dword_bytes (Z.land (Z.shiftr q 32) 0xFFFFFFFF).

Definition mov_reg_imm_bytes (reg imm : Z) : list Z :=
  [Z.lor 0x48 (Z.land (Z.shiftr reg 3) 1); Z.lor 0xB8 (Z.land reg 7)]
  ++ qword_bytes imm.

(** Fifteen values without register, each the destination of one
    instruction of a single block. *)
Definition fifteen_values : gmap N Standalone.ssa_value_t :=
  list_to_map ((λ k, (N.of_nat k, Standalone.mk_ssa_value (Z.of_nat k) 0 (-1)))
                 <$> seq 0 15).

Definition fifteen_ctx : Standalone.jit_context_t :=
  Standalone.mk_jit_context
    [Standalone.mk_basic_block 0
       ((λ k, Standalone.mk_ssa_instruction Standalone.IR_LOAD
                (Some (N.of_nat k)) None None) <$> seq 0 15)]
    1 (replicate 4096 0) 0 15 0.


(** * Properties of jit_engine.c *)

(** ** Machine arithmetic *)

Lemma wrap_i64_range z : - 2 ^ 63 <= wrap_i64 z < 2 ^ 63.
Proof. unfold wrap_i64. pose proof (Z.mod_pos_bound (z + 2 ^ 63) (2 ^ 64)). lia. Qed.

Lemma wrap_i64_congruent z : (wrap_i64 z - z) mod 2 ^ 64 = 0.
Proof.
  unfold wrap_i64.
  rewrite (Z.mod_eq (z + 2 ^ 63) (2 ^ 64)) by lia.
  replace (z + 2 ^ 63 - 2 ^ 64 * ((z + 2 ^ 63) `div` 2 ^ 64) - 2 ^ 63 - z)
    with (- ((z + 2 ^ 63) `div` 2 ^ 64) * 2 ^ 64) by lia.
  apply Z.mod_mul. lia.
Qed.

Lemma wrap_i64_small z : - 2 ^ 63 <= z < 2 ^ 63 → wrap_i64 z = z.
Proof. intros H. unfold wrap_i64. rewrite Z.mod_small; lia. Qed.

(** ** Constant folding *)

Lemma fold_inst_counter n inst :
  (fold_inst n inst).2 = if foldable inst then bump n else n.
Proof.
  unfold fold_inst, foldable.
  destruct inst as [op d [i1 t1 c1 v1] [i2 t2 c2 v2] tb eb lv]; simpl.
  destruct c1, c2, op; reflexivity.
Qed.

Lemma fold_inst_not_foldable n inst :
  foldable inst = false → (fold_inst n inst).1 = inst.
Proof.
  unfold fold_inst, foldable.
  destruct inst as [op d [i1 t1 c1 v1] [i2 t2 c2 v2] tb eb lv]; simpl.
  destruct c1, c2, op; simpl; congruence.
Qed.

Lemma fold_insts_counter n insts :
  (fold_insts n insts).2 = Nat.iter (count_foldable insts) bump n.
Proof.
  revert n. induction insts as [|inst rest IH]; intros n; [reflexivity|].
  simpl. pose proof (fold_inst_counter n inst) as Hc.
  destruct (fold_inst n inst) as [inst' n1]; simpl in Hc.
  specialize (IH n1). destruct (fold_insts n1 rest) as [rest' n2]; simpl in *.
  subst n1 n2. unfold count_foldable. simpl.
  destruct (foldable inst); simpl; [|reflexivity].
  by rewrite <- Nat.iter_succ_r.
Qed.

Lemma fold_insts_lookup n insts i old :
  insts !! i = Some old →
  (fold_insts n insts).1 !! i
  = Some (fold_inst (Nat.iter (count_foldable (take i insts)) bump n) old).1.
Proof.
  revert n i. induction insts as [|inst rest IH]; intros n i Hi; [done|].
  simpl. pose proof (fold_inst_counter n inst) as Hc.
  destruct (fold_inst n inst) as [inst' n1] eqn:Hf; simpl in Hc.
  destruct i as [|i]; simpl in Hi.
  - injection Hi as ->. destruct (fold_insts n1 rest). simpl. by rewrite Hf.
  - specialize (IH n1 i Hi). destruct (fold_insts n1 rest) as [rest' n2].
    simpl in *. rewrite IH. subst n1. unfold count_foldable. simpl.
    destruct (foldable inst); simpl; [|reflexivity].
    by rewrite <- Nat.iter_succ_r.
Qed.

Lemma fold_insts_app n l1 l2 :
  fold_insts n (l1 ++ l2)
  = ((fold_insts n l1).1 ++ (fold_insts (fold_insts n l1).2 l2).1,
     (fold_insts (fold_insts n l1).2 l2).2).
Proof.
  revert n. induction l1 as [|inst rest IH]; intros n; simpl.
  - by destruct (fold_insts n l2).
  - destruct (fold_inst n inst) as [inst' n1]. rewrite IH.
    destruct (fold_insts n1 rest) as [rest' n2]; simpl.
    by destruct (fold_insts n2 l2).
Qed.

Lemma fold_blocks_flat n blocks :
  concat (map block_instructions (fold_blocks n blocks).1)
  = (fold_insts n (concat (map block_instructions blocks))).1
  ∧ (fold_blocks n blocks).2
    = (fold_insts n (concat (map block_instructions blocks))).2.
Proof.
  revert n. induction blocks as [|b rest IH]; intros n; simpl; [done|].
  rewrite fold_insts_app.
  destruct (fold_insts n (block_instructions b)) as [insts' n1]; simpl.
  destruct (IH n1) as [IH1 IH2].
  destruct (fold_blocks n1 rest) as [rest' n2]; simpl in *.
  by rewrite IH1, IH2.
Qed.

Lemma constant_folding_flat func :
  all_instructions (constant_folding func)
  = (fold_insts (func_next_ssa_id func) (all_instructions func)).1
  ∧ func_next_ssa_id (constant_folding func)
    = (fold_insts (func_next_ssa_id func) (all_instructions func)).2.
Proof.
  unfold constant_folding, all_instructions.
  destruct (fold_blocks_flat (func_next_ssa_id func) (func_blocks func)) as [H1 H2].
  destruct (fold_blocks (func_next_ssa_id func) (func_blocks func)); simpl in *.
  done.
Qed.

Lemma build_scenario2_eq :
  build_scenario2 (ready_state JIT_ARCH_X86_64) = Some scenario2.
Proof. reflexivity. Qed.

(** C1.  Constant folding, instruction by instruction.  Let [old] be the
    [i]-th instruction of the function in program order and [a], [b] the
    constant values of its operands.  After [constant_folding] the [i]-th
    instruction [new] is as follows.  If both operands of [old] are
    constants and its opcode is Add, Sub or Mul, then [new] is a [Mov] with
    the same destination whose [src1] is a constant created by
    [jit_value_create_constant]: its id is the value the function's SSA
    counter had when the pass reached the instruction (the counter on
    entry, post-incremented once for every instruction folded before),
    its type is the destination's type, and its [constant_value] is
    [a + b], [a - b] or [a * b] reduced modulo 2^64 into the range of
    [int64_t]; [src2] is cleared the way the pass clears it, by resetting
    its id to 0.  Every other instruction is left as it was. *)
Theorem constant_folding_folds_arithmetic
    (func : jit_function_t) (i : nat) (old : jit_instruction_t) :
  all_instructions func !! i = Some old →
  ∃ new,
    all_instructions (constant_folding func) !! i = Some new ∧
    let a := value_constant_value (inst_src1 old) in
    let b := value_constant_value (inst_src2 old) in
    let fresh := Nat.iter (count_foldable (take i (all_instructions func)))
                          bump (func_next_ssa_id func) in
    (value_is_constant (inst_src1 old) = true →
     value_is_constant (inst_src2 old) = true →
       (inst_opcode old = JIT_OP_ADD → new = folded_to old fresh (wrap_i64 (a + b))) ∧
       (inst_opcode old = JIT_OP_SUB → new = folded_to old fresh (wrap_i64 (a - b))) ∧
       (inst_opcode old = JIT_OP_MUL → new = folded_to old fresh (wrap_i64 (a * b)))) ∧
    (foldable old = false → new = old).
Proof.
  intros Hi. eexists. split.
  - destruct (constant_folding_flat func) as [-> _].
    by apply fold_insts_lookup.
  - cbv zeta. split.
    + intros H1 H2. unfold fold_inst, folded_to. rewrite H1, H2. simpl.
      repeat split; intros ->; reflexivity.
    + apply fold_inst_not_foldable.
Qed.

Lemma constant_folding_folds_arithmetic_witness :
  ∃ new,
    all_instructions (constant_folding scenario2) !! 0%nat = Some new ∧
    new = folded_to scenario2_add 6 7.
Proof.
  destruct (constant_folding_folds_arithmetic scenario2 0 scenario2_add eq_refl)
    as (new & Hnew & Hfold & _).
  exists new. split; [exact Hnew|].
  exact (proj1 (Hfold eq_refl eq_refl) eq_refl).
Defined.

(** ** Dead-code elimination *)

Lemma build_scenario1_eq :
  build_scenario1 (ready_state JIT_ARCH_X86_64) = Some scenario1.
Proof. reflexivity. Qed.

Lemma dce_marks_side_effect inst :
  dce_marks inst = negb (inst_is_live inst) && side_effect (inst_opcode inst).
Proof. unfold dce_marks. by destruct (inst_opcode inst), (inst_is_live inst). Qed.

Lemma mark_is_live inst :
  inst_is_live (mark inst) = inst_is_live inst || side_effect (inst_opcode inst).
Proof.
  unfold mark. rewrite dce_marks_side_effect.
  by destruct (inst_is_live inst) eqn:E, (side_effect (inst_opcode inst)); simpl.
Qed.

Lemma mark_opcode inst : inst_opcode (mark inst) = inst_opcode inst.
Proof. unfold mark. by destruct (dce_marks inst). Qed.

Lemma dce_marks_mark inst : dce_marks (mark inst) = false.
Proof.
  rewrite dce_marks_side_effect, mark_is_live, mark_opcode.
  by destruct (inst_is_live inst), (side_effect (inst_opcode inst)).
Qed.

Lemma mark_mark inst : mark (mark inst) = mark inst.
Proof. unfold mark at 1. by rewrite dce_marks_mark. Qed.

Lemma dce_insts_spec insts changed :
  dce_insts insts changed = (map mark insts, changed || existsb dce_marks insts).
Proof.
  revert changed. induction insts as [|inst rest IH]; intros changed; simpl.
  - by rewrite orb_false_r.
  - unfold mark. destruct (dce_marks inst); rewrite IH; simpl.
    + by rewrite orb_true_r.
    + done.
Qed.

Lemma dce_blocks_spec blocks changed :
  dce_blocks blocks changed
  = (map mark_block blocks,
     changed || existsb (λ b, existsb dce_marks (block_instructions b)) blocks).
Proof.
  revert changed. induction blocks as [|b rest IH]; intros changed; simpl.
  - by rewrite orb_false_r.
  - rewrite dce_insts_spec, IH. by rewrite orb_assoc.
Qed.

Lemma dce_pass_spec func :
  dce_pass func
  = (mark_func func,
     existsb (λ b, existsb dce_marks (block_instructions b)) (func_blocks func)).
Proof. unfold dce_pass. by rewrite dce_blocks_spec. Qed.

Lemma mark_func_settled func :
  existsb (λ b, existsb dce_marks (block_instructions b))
          (func_blocks (mark_func func)) = false.
Proof.
  simpl. induction (func_blocks func) as [|b rest IH]; simpl; [done|].
  rewrite IH, orb_false_r.
  induction (block_instructions b) as [|inst insts IHi]; simpl; [done|].
  by rewrite dce_marks_mark, IHi.
Qed.

Lemma mark_func_idempotent func : mark_func (mark_func func) = mark_func func.
Proof.
  unfold mark_func, set_blocks. simpl. f_equal.
  rewrite map_map. apply map_ext. intros b.
  unfold mark_block, set_instructions. simpl. f_equal.
  rewrite map_map. apply map_ext. intros inst. apply mark_mark.
Qed.

(** The [while (changed)] loop leaves after at most two iterations,
    whatever the function: any bound of two or more gives the result. *)
Lemma dce_loop_two fuel func :
  dce_loop (S (S fuel)) func = Some (mark_func func).
Proof.
  simpl. rewrite dce_pass_spec.
  destruct (existsb _ (func_blocks func)); [|done].
  destruct fuel; simpl;
    by rewrite dce_pass_spec, mark_func_settled, mark_func_idempotent.
Qed.

Lemma eliminate_dead_code_spec func : eliminate_dead_code func = mark_func func.
Proof. unfold eliminate_dead_code. by rewrite dce_loop_two. Qed.

Lemma all_instructions_mark_func func :
  all_instructions (mark_func func) = map mark (all_instructions func).
Proof.
  unfold all_instructions. simpl.
  induction (func_blocks func) as [|b rest IH]; simpl; [done|].
  by rewrite map_app, IH.
Qed.

(** After the pass an instruction is live exactly if it was live before
    or has a side-effecting opcode. *)
Lemma eliminate_dead_code_live func i inst :
  all_instructions func !! i = Some inst →
  ∃ inst', all_instructions (eliminate_dead_code func) !! i = Some inst' ∧
    inst_is_live inst' = inst_is_live inst || side_effect (inst_opcode inst).
Proof.
  intros Hi. exists (mark inst). split; [|apply mark_is_live].
  by rewrite eliminate_dead_code_spec, all_instructions_mark_func,
    list_lookup_fmap, Hi.
Qed.

(** C2 (the code departs from the claim).  On [f(a, b) = a + b; return]
    the pass marks the [Return] live, the [Return] consumes the
    destination of the [Add], and the [Add] is still not marked live: the
    pass marks the seeds and never follows an operand. *)
Theorem eliminate_dead_code_ignores_operands :
  all_instructions (eliminate_dead_code scenario1)
    = [scenario1_add; set_live scenario1_return] ∧
  side_effect (inst_opcode scenario1_return) = true ∧
  inst_is_live (set_live scenario1_return) = true ∧
  consumes (set_live scenario1_return) scenario1_add ∧
  inst_is_live scenario1_add = false.
Proof.
  split; [reflexivity|].
  split; [reflexivity|].
  split; [reflexivity|].
  split; [|reflexivity].
  split; [discriminate|left; reflexivity].
Qed.

Lemma foldable_mark inst : foldable (mark inst) = foldable inst.
Proof. unfold mark. by destruct (dce_marks inst). Qed.

Lemma count_foldable_mark insts :
  count_foldable (map mark insts) = count_foldable insts.
Proof.
  unfold count_foldable. induction insts as [|inst rest IH]; [done|].
  simpl. rewrite foldable_mark. destruct (foldable inst); simpl; by rewrite IH.
Qed.

(** The two passes together advance the SSA counter once for every
    instruction that gets folded. *)
Lemma optimised_counter func :
  func_next_ssa_id (optimised func)
  = Nat.iter (count_foldable (all_instructions func)) bump (func_next_ssa_id func).
Proof.
  unfold optimised.
  destruct (constant_folding_flat (eliminate_dead_code func)) as [_ ->].
  rewrite fold_insts_counter, eliminate_dead_code_spec, all_instructions_mark_func.
  by rewrite count_foldable_mark.
Qed.

(** ** The constant chain [(3 + 4) * 2] *)

(** C7 as stated fails: before code generation the function still has
    three instructions, not a single one, and the only instruction marked
    live is the [Return], not a [Mov]. *)
Lemma scenario2_single_mov_refuted :
  ¬ (∃ mov, all_instructions (optimised scenario2) = [mov]
            ∧ inst_opcode mov = JIT_OP_MOV) ∧
  ¬ (∃ mov, live_instructions (optimised scenario2) = [mov]
            ∧ inst_opcode mov = JIT_OP_MOV).
Proof.
  split; intros (mov & Hl & Hop).
  - vm_compute in Hl. discriminate Hl.
  - vm_compute in Hl. injection Hl as <-. discriminate Hop.
Qed.

(** C7, amended.  For [f() = (3 + 4) * 2] built from constants, a
    successful [jit_function_compile] leaves all three instructions in
    place: the [Add] has become a [Mov] of a new constant 7 (id 6), the
    dependent [Mul] is not folded, because its first operand is the
    non-constant destination of the former [Add], and the [Return] is
    marked live.  Exactly one instruction is a [Mov].  A second
    compilation folds nothing more: it leaves the function object as the
    first one left it. *)
Theorem scenario2_folds_one_level :
  let r1 := jit_function_compile (ready_state JIT_ARCH_X86_64) (Some scenario2) in
  ∃ f1,
    res_func r1 = Some f1 ∧ f1 = optimised scenario2 ∧ is_Some (res_code r1) ∧
    all_instructions f1
      = [folded_to scenario2_add 6 7; scenario2_mul; set_live scenario2_return] ∧
    List.filter (λ i, bool_decide (inst_opcode i = JIT_OP_MOV)) (all_instructions f1)
      = [folded_to scenario2_add 6 7] ∧
    foldable scenario2_mul = false ∧
    res_func (jit_function_compile (res_state r1) (Some f1)) = Some f1.
Proof.
  eexists. split; [reflexivity|].
  repeat split; try reflexivity. by eexists.
Qed.

(** ** The passes keep the shape of the IR *)

Lemma build_store_only_eq :
  build_store_only (ready_state JIT_ARCH_X86_64) = Some store_only.
Proof. reflexivity. Qed.

Lemma mark_liveness_set inst : liveness_set inst (mark inst).
Proof. unfold mark, liveness_set. destruct (dce_marks inst); auto. Qed.

Lemma fold_inst_in_place n inst : folded_in_place inst (fold_inst n inst).1.
Proof.
  destruct (foldable inst) eqn:Hf.
  - right. unfold foldable in Hf.
    apply andb_prop in Hf as [Hf H2]. apply andb_prop in Hf as [Hop H1].
    destruct (inst_opcode inst) eqn:Hopc; try discriminate Hop;
      do 2 eexists; unfold fold_inst, folded_to; rewrite Hopc, H1, H2;
      reflexivity.
  - left. by apply fold_inst_not_foldable.
Qed.

Lemma fold_insts_in_place n insts :
  Forall2 folded_in_place insts (fold_insts n insts).1.
Proof.
  revert n. induction insts as [|inst rest IH]; intros n; simpl; [constructor|].
  pose proof (fold_inst_in_place n inst) as Hi.
  destruct (fold_inst n inst) as [inst' n1]. specialize (IH n1).
  destruct (fold_insts n1 rest). by constructor.
Qed.

Lemma fold_blocks_same_block n blocks :
  Forall2 (same_block folded_in_place) blocks (fold_blocks n blocks).1.
Proof.
  revert n. induction blocks as [|b rest IH]; intros n; simpl; [constructor|].
  pose proof (fold_insts_in_place n (block_instructions b)) as Hb.
  destruct (fold_insts n (block_instructions b)) as [insts' n1].
  specialize (IH n1). destruct (fold_blocks n1 rest). by constructor.
Qed.

Lemma codegen_x86_64_flat func :
  codegen_x86_64 func
  = x86_64_prologue ++ concat (map emit_x86_64 (all_instructions func)).
Proof.
  unfold codegen_x86_64, all_instructions. f_equal.
  induction (func_blocks func) as [|b rest IH]; simpl; [done|].
  by rewrite map_app, concat_app, IH.
Qed.

Lemma codegen_arm64_words_flat func :
  codegen_arm64_words func
  = arm64_prologue ++ concat (map emit_arm64 (all_instructions func)).
Proof.
  unfold codegen_arm64_words, all_instructions. f_equal.
  induction (func_blocks func) as [|b rest IH]; simpl; [done|].
  by rewrite map_app, concat_app, IH.
Qed.

(** C8 as stated fails in its last part: the back end emits no code for
    the [Store] of a function that consists of one [Store]; the generated
    code is the prologue alone. *)
Lemma store_only_emits_no_code :
  ¬ (∀ inst, inst ∈ all_instructions (optimised store_only) →
             emit_x86_64 inst ≠ []) ∧
  all_instructions (optimised store_only) = [with_live store_only_inst true] ∧
  codegen_x86_64 (optimised store_only) = x86_64_prologue.
Proof.
  split; [|split; reflexivity].
  intros H. apply (H (with_live store_only_inst true)); [|reflexivity].
  vm_compute. left.
Qed.

(** C8, amended.  Both passes keep the shape of the IR.  Dead-code
    elimination returns the same chain of blocks, each with the same id,
    instruction counter and chain length, and changes an instruction at
    most by setting its liveness flag; constant folding does the same and
    changes an instruction at most by folding it in place.  Neither
    moves the builder cursor nor changes the block count.  Each code
    generator walks every instruction of every block in program order and
    emits the code of its opcode whatever its liveness flag is; that code
    is empty exactly for the opcodes without a case in the back end's
    switch (x86_64: Div, Load, Store, Branch, BranchIf, Call; ARM64:
    these and Mov). *)
Theorem passes_preserve_structure (func : jit_function_t) :
  Forall2 (same_block liveness_set)
          (func_blocks func) (func_blocks (eliminate_dead_code func)) ∧
  Forall2 (same_block folded_in_place)
          (func_blocks func) (func_blocks (constant_folding func)) ∧
  func_current_block (optimised func) = func_current_block func ∧
  func_num_blocks (optimised func) = func_num_blocks func ∧
  length (all_instructions (optimised func)) = length (all_instructions func) ∧
  codegen_x86_64 (optimised func)
    = x86_64_prologue ++ concat (map emit_x86_64 (all_instructions (optimised func))) ∧
  codegen_arm64_words (optimised func)
    = arm64_prologue ++ concat (map emit_arm64 (all_instructions (optimised func))) ∧
  (∀ inst live,
     emit_x86_64 (with_live inst live) = emit_x86_64 inst ∧
     emit_arm64 (with_live inst live) = emit_arm64 inst) ∧
  (∀ inst,
     (emit_x86_64 inst ≠ [] ↔ has_x86_64_case (inst_opcode inst) = true) ∧
     (emit_arm64 inst ≠ [] ↔ has_arm64_case (inst_opcode inst) = true)).
Proof.
  split; [|split; [|split; [|split; [|split; [|split; [|split; [|split]]]]]]].
  - rewrite eliminate_dead_code_spec. simpl.
    induction (func_blocks func) as [|b rest IH]; constructor; [|done].
    repeat split; try done. simpl.
    induction (block_instructions b); constructor; [apply mark_liveness_set|done].
  - unfold constant_folding.
    pose proof (fold_blocks_same_block (func_next_ssa_id func) (func_blocks func)).
    by destruct (fold_blocks (func_next_ssa_id func) (func_blocks func)).
  - unfold optimised, constant_folding. rewrite eliminate_dead_code_spec.
    by destruct (fold_blocks _ _).
  - unfold optimised, constant_folding. rewrite eliminate_dead_code_spec.
    by destruct (fold_blocks _ _).
  - unfold optimised.
    destruct (constant_folding_flat (eliminate_dead_code func)) as [-> _].
    pose proof (fold_insts_in_place
                  (func_next_ssa_id (eliminate_dead_code func))
                  (all_instructions (eliminate_dead_code func))) as H.
    apply Forall2_length in H. rewrite <- H.
    by rewrite eliminate_dead_code_spec, all_instructions_mark_func, length_map.
  - apply codegen_x86_64_flat.
  - apply codegen_arm64_words_flat.
  - intros inst live. split; reflexivity.
  - intros inst. unfold emit_x86_64, emit_arm64.
    destruct (inst_opcode inst); simpl; split; split; try done;
      destruct (value_is_constant (inst_src1 inst)); done.
Qed.

(** ** Block ids *)

Lemma create_blocks_counter n st :
  0 <= block_id_counter st < 2 ^ 32 →
  block_id_counter (create_blocks n st)
  = (block_id_counter st + Z.of_N n) mod 2 ^ 32.
Proof.
  intros Hst. unfold create_blocks.
  induction n as [|n IH] using N.peano_ind.
  - simpl. rewrite Z.add_0_r, Z.mod_small; lia.
  - rewrite N.iter_succ.
    set (s := N.iter n _ st) in *.
    change (wrap_u32 (block_id_counter s + 1) =
            (block_id_counter st + Z.of_N (N.succ n)) mod 2 ^ 32).
    rewrite IH. unfold wrap_u32.
    rewrite Zplus_mod_idemp_l. f_equal. lia.
Qed.

Lemma nth_block_id_mod n : nth_block_id n = Z.of_N n mod 2 ^ 32.
Proof.
  unfold nth_block_id. simpl.
  rewrite create_blocks_counter by (simpl; lia). reflexivity.
Qed.

(** C10 as stated fails: in a fresh process the first call of
    [jit_block_create] returns id 0, and so does the call that comes
    after 2^32 earlier ones, because the [uint32_t] counter has wrapped;
    the later id is not greater than the earlier one, and the two blocks
    share their id. *)
Lemma block_id_wraps :
  nth_block_id 0 = 0 ∧ nth_block_id (2 ^ 32) = 0 ∧
  ¬ (nth_block_id 0 < nth_block_id (2 ^ 32)).
Proof.
  rewrite !nth_block_id_mod.
  replace (Z.of_N (2 ^ 32)) with (2 ^ 32) by reflexivity.
  replace (Z.of_N 0) with 0 by reflexivity.
  rewrite Z.mod_0_l, Z_mod_same_full by lia. lia.
Qed.

Lemma run_call_counter st c :
  (run_call st c).1 = None ∧ block_id_counter (run_call st c).2 = block_id_counter st
  ∨ (run_call st c).1 = Some (block_id_counter st)
    ∧ block_id_counter (run_call st c).2 = wrap_u32 (block_id_counter st + 1).
Proof.
  destruct c as [target mmap_ok| |]; simpl.
  - left. unfold jit_init. by destruct mmap_ok.
  - right. done.
  - unfold jit_function_create.
    destruct (ctx_initialized (g_jit_context st)); simpl; [right|left]; done.
Qed.

Lemma run_calls_ids st cs :
  0 <= block_id_counter st →
  block_id_counter st + Z.of_nat (length (run_calls st cs).1) <= 2 ^ 32 →
  (run_calls st cs).1 = seqZ (block_id_counter st) (Z.of_nat (length (run_calls st cs).1)).
Proof.
  revert st. induction cs as [|c rest IH]; intros st H0 Hlen; [done|].
  simpl in *. pose proof (run_call_counter st c) as Hc.
  destruct (run_call st c) as [oid st1]. simpl in Hc.
  specialize (IH st1). destruct (run_calls st1 rest) as [ids st2]. simpl in *.
  destruct Hc as [[-> Hst1]|[-> Hst1]]; simpl in *.
  - rewrite Hst1 in IH. apply IH; lia.
  - rewrite Nat2Z.inj_succ, seqZ_cons by lia. f_equal.
    assert (block_id_counter st + 1 < 2 ^ 32 ∨ ids = []) as [Hlt | ->].
    { destruct ids; [by right|left]. simpl in Hlen. lia. }
    + unfold wrap_u32 in Hst1. rewrite Z.mod_small in Hst1 by lia.
      rewrite Hst1 in IH. rewrite Z.pred_succ. apply IH; lia.
    + done.
Qed.

(** C10, amended.  Block ids come from one process-wide [uint32_t]
    counter, which [jit_init] does not reset.  Take any sequence of
    [jit_init], [jit_block_create] and [jit_function_create] calls, from
    any state of the process, during which the counter does not wrap
    (the counter on entry plus the number of blocks created is at most
    2^32).  Then the ids of the blocks created, entry blocks of functions
    included, are the successive counter values: each is strictly greater
    than every id returned earlier, and no two blocks share an id,
    whatever function or context they were created for. *)
Theorem block_ids_strictly_increase (st : jit_state) (cs : list call) :
  0 <= block_id_counter st →
  block_id_counter st + Z.of_nat (length (run_calls st cs).1) <= 2 ^ 32 →
  let ids := (run_calls st cs).1 in
  ids = seqZ (block_id_counter st) (Z.of_nat (length ids)) ∧
  (∀ (i j : nat) (a b : Z),
     ids !! i = Some a → ids !! j = Some b → (i < j)%nat → a < b) ∧
  NoDup ids.
Proof.
  intros H0 Hlen ids. pose proof (run_calls_ids st cs H0 Hlen) as Hids.
  fold ids in Hids. split; [exact Hids|]. split.
  - intros i j a b Hi Hj Hij. rewrite Hids in Hi, Hj.
    apply lookup_seqZ in Hi as [-> _]. apply lookup_seqZ in Hj as [-> _]. lia.
  - rewrite Hids. apply NoDup_seqZ.
Qed.

Lemma block_ids_strictly_increase_witness :
  (run_calls initial_state
     [CallInit JIT_ARCH_X86_64 true; CallFunctionCreate; CallBlockCreate;
      CallInit JIT_ARCH_ARM64 true; CallFunctionCreate]).1 = seqZ 0 3.
Proof.
  refine (proj1 (block_ids_strictly_increase initial_state
     [CallInit JIT_ARCH_X86_64 true; CallFunctionCreate; CallBlockCreate;
      CallInit JIT_ARCH_ARM64 true; CallFunctionCreate] _ _)).
  - simpl. lia.
  - vm_compute. discriminate.
Defined.

(** ** Compilation *)

Lemma jit_function_create_empty :
  (jit_function_create (ready_state JIT_ARCH_X86_64)).1 = Some empty_function.
Proof. reflexivity. Qed.

(** What [jit_function_compile] does, case by case. *)
Lemma jit_function_compile_cases st f :
  let ctx := g_jit_context st in
  let r := jit_function_compile st (Some f) in
  (ctx_initialized ctx = false ∧ r = mk_result None st (Some f) []) ∨
  (ctx_initialized ctx = true ∧ codegen_for (ctx_target_arch ctx) = None ∧
   r = mk_result None st (Some (optimised f)) []) ∨
  (∃ gen, ctx_initialized ctx = true ∧
     codegen_for (ctx_target_arch ctx) = Some gen ∧
     r = mk_result (Some (ctx_code_ptr ctx))
           (advance_code_ptr st (Z.of_nat (length (gen (optimised f)))))
           (Some (optimised f)) (gen (optimised f))).
Proof.
  cbv zeta. unfold jit_function_compile, optimised.
  destruct (ctx_initialized (g_jit_context st)); simpl; [|by left].
  right. destruct (ctx_target_arch (g_jit_context st)); simpl.
  - right. by eexists.
  - right. by eexists.
  - by left.
Qed.

(** C4 as stated fails: compiling [(3 + 4) * 2] for RISC-V returns the
    null pointer, yet the function object has been rewritten by the two
    passes (the [Return] is marked live, the [Add] is folded and the SSA
    counter has advanced). *)
Lemma failed_compile_rewrites_ir :
  let r := jit_function_compile (ready_state JIT_ARCH_RISCV64) (Some scenario2) in
  res_code r = None ∧
  res_func r ≠ Some scenario2 ∧
  (all_instructions <$> res_func r)
    = Some [folded_to scenario2_add 6 7; scenario2_mul; set_live scenario2_return].
Proof. cbv zeta. split; [reflexivity|]. split; [discriminate|reflexivity]. Qed.

(** C4, amended.  Whenever [jit_function_compile] returns the null
    pointer, the statics are as before, so the code-cache cursor is not
    advanced, and nothing is stored in the code cache.  The function's IR
    is untouched if the function pointer is null or the context is not
    initialised; for a target without back end the function object is left
    as dead-code elimination followed by constant folding rewrote it. *)
Theorem failed_compile_effects (st : jit_state) (func : option jit_function_t) :
  let r := jit_function_compile st func in
  res_code r = None →
  res_state r = st ∧
  res_written r = [] ∧
  ((func = None ∨ ctx_initialized (g_jit_context st) = false) ∧ res_func r = func
   ∨ ctx_initialized (g_jit_context st) = true ∧
     codegen_for (ctx_target_arch (g_jit_context st)) = None ∧
     res_func r = optimised <$> func).
Proof.
  cbv zeta. destruct func as [f|];
    [|intros _; simpl; split; [done|]; split; [done|]; left; auto].
  destruct (jit_function_compile_cases st f) as [[Hi ->]|[(Hi & Hg & ->)|(gen & Hi & Hg & ->)]];
    simpl; intros Hr.
  - split; [done|]. split; [done|]. left. auto.
  - split; [done|]. split; [done|]. right. auto.
  - discriminate Hr.
Qed.

Lemma failed_compile_effects_witness :
  let r := jit_function_compile (ready_state JIT_ARCH_RISCV64) (Some scenario2) in
  res_state r = ready_state JIT_ARCH_RISCV64 ∧ res_written r = [] ∧
  res_func r = Some (optimised scenario2).
Proof.
  cbv zeta.
  destruct (failed_compile_effects (ready_state JIT_ARCH_RISCV64) (Some scenario2) eq_refl)
    as (Hst & Hw & [[[H|H] _]|(_ & _ & Hf)]).
  - discriminate H.
  - discriminate H.
  - repeat split; assumption.
Defined.

(** *** The code cache has no bound check *)

(** With a back end for the target, an initialised context never makes
    [jit_function_compile] fail, wherever the cursor is: it returns the
    cursor and stores the generated code there. *)
Lemma compile_succeeds_regardless_of_cursor st f gen :
  ctx_initialized (g_jit_context st) = true →
  codegen_for (ctx_target_arch (g_jit_context st)) = Some gen →
  jit_function_compile st (Some f)
  = mk_result (Some (ctx_code_ptr (g_jit_context st)))
      (advance_code_ptr st (Z.of_nat (length (gen (optimised f)))))
      (Some (optimised f)) (gen (optimised f)).
Proof.
  intros Hi Hg.
  destruct (jit_function_compile_cases st f)
    as [[Hi' _]|[(_ & Hg' & _)|(gen' & _ & Hg' & ->)]]; try congruence.
Qed.

Lemma compile_step_empty st :
  ctx_initialized (g_jit_context st) = true →
  ctx_target_arch (g_jit_context st) = JIT_ARCH_X86_64 →
  compile_step (st, empty_function) = (advance_code_ptr st 4, empty_function).
Proof.
  intros Hi Ha. unfold compile_step. simpl fst. simpl snd.
  rewrite (compile_succeeds_regardless_of_cursor st empty_function codegen_x86_64 Hi)
    by (by rewrite Ha).
  reflexivity.
Qed.

Lemma compile_repeatedly_empty n st :
  ctx_initialized (g_jit_context st) = true →
  ctx_target_arch (g_jit_context st) = JIT_ARCH_X86_64 →
  compile_repeatedly n (st, empty_function)
  = (advance_code_ptr st (4 * Z.of_N n), empty_function).
Proof.
  intros Hi Ha. unfold compile_repeatedly.
  induction n as [|n IH] using N.peano_ind.
  - simpl. f_equal. destruct st as [[]]; unfold advance_code_ptr; simpl.
    by rewrite Z.add_0_r.
  - rewrite N.iter_succ, IH, compile_step_empty by done.
    f_equal. unfold advance_code_ptr; simpl. do 2 f_equal. lia.
Qed.

(** C3 (the code departs from the claim).  In a fresh process
    initialised for x86_64, compile the empty function 262144 times: the
    4-byte prologues fill the 1 MiB code cache exactly, so no byte
    remains.  The next compilation does not fail: it returns the cursor,
    which is the end of the cache, and stores its four bytes at the
    offsets 1048576 to 1048579, all of them outside the mapped region. *)
Theorem compile_writes_past_cache_end :
  let st := (compile_repeatedly 262144 (ready_state JIT_ARCH_X86_64, empty_function)).1 in
  let r := jit_function_compile st (Some empty_function) in
  ctx_code_ptr (g_jit_context st) = ctx_code_cache_size (g_jit_context st) ∧
  res_code r = Some 1048576 ∧
  res_written r = [0x55; 0x48; 0x89; 0xe5] ∧
  written_offsets st r = [1048576; 1048577; 1048578; 1048579] ∧
  Forall (λ o, ¬ in_code_cache st o) (written_offsets st r).
Proof.
  cbv zeta. rewrite compile_repeatedly_empty by reflexivity.
  simpl fst. set (st := advance_code_ptr _ _).
  assert (written_offsets st (jit_function_compile st (Some empty_function))
          = [1048576; 1048577; 1048578; 1048579]) as -> by reflexivity.
  split; [reflexivity|]. split; [reflexivity|]. split; [reflexivity|].
  split; [reflexivity|].
  repeat (constructor;
          [unfold in_code_cache, st; simpl; unfold JIT_CODE_CACHE_SIZE; lia|]).
  constructor.
Qed.

(** * Properties of jit_compiler.c *)

(** ** Register allocation *)

Lemma dedup_filter (P : N → Prop) `{!∀ x, Decision (P x)} l :
  dedup (filter P l) = filter P (dedup l).
Proof.
  induction l as [|x l IH]; [done|]. simpl.
  destruct (decide (P x)) as [HP|HP].
  - rewrite !filter_cons_True by done. simpl. f_equal.
    rewrite IH, !list_filter_filter. apply list_filter_iff. tauto.
  - rewrite !filter_cons_False by done. rewrite IH.
    rewrite list_filter_filter. apply list_filter_iff.
    intros y. split; [|tauto]. intros Hy. split; [done|]. by intros ->.
Qed.

Lemma round_robin_available k :
  round_robin k ∈ Standalone.available_regs.
Proof.
  unfold round_robin.
  destruct (Standalone.available_regs !! _) as [r|] eqn:Hr; simpl.
  - by eapply list_elem_of_lookup_2.
  - apply lookup_ge_None in Hr.
    pose proof (Z.mod_pos_bound k (Z.of_nat (length Standalone.available_regs))).
    simpl in *. lia.
Qed.

Lemma available_regs_general_purpose r :
  r ∈ Standalone.available_regs →
  0 <= r < 16 ∧ r ≠ Standalone.RSP ∧ r ≠ Standalone.RBP.
Proof.
  unfold Standalone.available_regs. rewrite !elem_of_cons, elem_of_nil.
  unfold Standalone.RSP, Standalone.RBP.
  intros H; repeat destruct H as [->|H]; try done; vm_compute; intuition congruence.
Qed.

Lemma round_robin_rem k :
  0 <= k →
  default 0 (Standalone.available_regs
               !! Z.to_nat (Z.rem k Standalone.reg_count))
  = round_robin k.
Proof.
  intros Hk. unfold round_robin, Standalone.reg_count.
  rewrite Z.rem_mod_nonneg; [done|lia|simpl; lia].
Qed.

Lemma targets_skip heap inst rest :
  (∀ p, Standalone.dest inst = Some p → ¬ unassigned heap p) →
  allocation_targets heap (inst :: rest) = allocation_targets heap rest.
Proof.
  intros H. unfold allocation_targets. simpl.
  destruct (Standalone.dest inst) as [p|]; simpl; [|done].
  by rewrite filter_cons_False by auto.
Qed.

Lemma targets_assign heap inst rest p v r :
  Standalone.dest inst = Some p →
  heap !! p = Some v →
  Standalone.data_reg v = -1 →
  r ≠ -1 →
  allocation_targets heap (inst :: rest)
  = p :: allocation_targets (<[p := Standalone.set_reg v r]> heap) rest
  ∧ p ∉ allocation_targets (<[p := Standalone.set_reg v r]> heap) rest.
Proof.
  intros Hd Hp Hv Hr. unfold allocation_targets. simpl. rewrite Hd. simpl.
  rewrite filter_cons_True by (unfold unassigned; by rewrite Hp; simpl; rewrite Hv).
  simpl.
  assert (filter (unassigned (<[p := Standalone.set_reg v r]> heap))
                 (omap Standalone.dest rest)
          = filter (λ y, y ≠ p) (filter (unassigned heap) (omap Standalone.dest rest)))
    as ->.
  { rewrite list_filter_filter. apply list_filter_iff. intros q.
    unfold unassigned. destruct (decide (q = p)) as [->|Hq].
    - rewrite lookup_insert_eq. simpl. split; [congruence|tauto].
    - rewrite lookup_insert_ne by done. tauto. }
  rewrite !dedup_filter. split; [done|].
  rewrite list_elem_of_filter. tauto.
Qed.

Lemma wrap_i32_small z : - 2 ^ 31 <= z < 2 ^ 31 → wrap_i32 z = z.
Proof. intros H. unfold wrap_i32. rewrite Z.mod_small; lia. Qed.

Lemma allocate_fold_spec insts : ∀ heap n,
  0 <= n →
  n + Z.of_nat (length (allocation_targets heap insts)) < 2 ^ 31 →
  let r := foldl Standalone.allocate_inst (heap, n) insts in
  r.2 = n + Z.of_nat (length (allocation_targets heap insts)) ∧
  (∀ (k : nat) p, allocation_targets heap insts !! k = Some p →
     ∃ v, heap !! p = Some v ∧ Standalone.data_reg v = -1 ∧
          r.1 !! p = Some (Standalone.set_reg v (round_robin (n + Z.of_nat k)))) ∧
  (∀ p, p ∉ allocation_targets heap insts → r.1 !! p = heap !! p).
Proof.
  induction insts as [|inst rest IH]; intros heap n Hn Hlen; cbv zeta.
  { simpl. split; [lia|]. split; [intros k p Hk; done|done]. }
  cbn [foldl].
  assert (Hskip : (∀ p, Standalone.dest inst = Some p → ¬ unassigned heap p) →
                  Standalone.allocate_inst (heap, n) inst = (heap, n)).
  { intros H. unfold Standalone.allocate_inst.
    destruct (Standalone.dest inst) as [p|]; [|done].
    specialize (H p eq_refl). unfold unassigned in H.
    destruct (heap !! p) as [v|]; [|done]. simpl in H.
    rewrite bool_decide_eq_false_2; [done|congruence]. }
  destruct (Standalone.dest inst) as [p|] eqn:Hd.
  2:{ rewrite Hskip by done. rewrite targets_skip in * by (rewrite Hd; done).
      by apply IH. }
  destruct (decide (unassigned heap p)) as [Hu|Hu].
  2:{ rewrite Hskip by (intros ? [= <-]; done).
      rewrite targets_skip in * by (rewrite Hd; intros ? [= <-]; done).
      by apply IH. }
  unfold unassigned in Hu. destruct (heap !! p) as [v|] eqn:Hp; [|done].
  simpl in Hu. injection Hu as Hv.
  assert (Hrr : round_robin n ≠ -1).
  { pose proof (available_regs_general_purpose _ (round_robin_available n)). lia. }
  destruct (targets_assign heap inst rest p v (round_robin n) Hd Hp Hv Hrr)
    as [Ht Hnotin].
  rewrite Ht in *. simpl length in *.
  set (heap1 := <[p := Standalone.set_reg v (round_robin n)]> heap) in *.
  assert (Standalone.allocate_inst (heap, n) inst = (heap1, n + 1)) as ->.
  { unfold Standalone.allocate_inst. rewrite Hd, Hp.
    rewrite bool_decide_eq_true_2 by done.
    rewrite round_robin_rem by done.
    by rewrite wrap_i32_small by lia. }
  destruct (IH heap1 (n + 1)) as (IH1 & IH2 & IH3); [lia|lia|].
  split; [rewrite IH1; lia|]. split.
  - intros [|k] q Hk; simpl in Hk.
    + injection Hk as <-. exists v. split; [done|]. split; [done|].
      rewrite IH3 by done. unfold heap1. rewrite lookup_insert_eq.
      by rewrite Z.add_0_r.
    + destruct (IH2 k q Hk) as (w & Hw1 & Hw2 & Hw3).
      assert (q ≠ p) as Hq.
      { intros ->. apply Hnotin. by eapply list_elem_of_lookup_2. }
      unfold heap1 in Hw1. rewrite lookup_insert_ne in Hw1 by done.
      exists w. split; [done|]. split; [done|].
      rewrite Hw3. do 3 f_equal. lia.
  - intros q Hq. apply not_elem_of_cons in Hq as [Hq1 Hq2].
    rewrite IH3 by done. unfold heap1. by rewrite lookup_insert_ne.
Qed.

Lemma elem_of_dedup x l : x ∈ dedup l ↔ x ∈ l.
Proof.
  induction l as [|y l IH]; [done|]. simpl.
  rewrite !elem_of_cons, list_elem_of_filter, IH.
  destruct (decide (x = y)); tauto.
Qed.

(** [jit_allocate_registers] on a heap: the counter moves on by the number
    of targets, the [k]-th target gets round-robin choice [next_reg + k],
    everything else is untouched, and afterwards no visited destination
    is without register. *)
Lemma jit_allocate_registers_spec heap ctx :
  let targets := allocation_targets heap (Standalone.visited_instructions ctx) in
  let heap' := (Standalone.jit_allocate_registers heap ctx).1 in
  let ctx' := (Standalone.jit_allocate_registers heap ctx).2 in
  0 <= Standalone.next_reg ctx →
  Standalone.next_reg ctx + Z.of_nat (length targets) < 2 ^ 31 →
  Standalone.next_reg ctx' = Standalone.next_reg ctx + Z.of_nat (length targets) ∧
  (∀ (k : nat) p, targets !! k = Some p →
     ∃ v, heap !! p = Some v ∧
          heap' !! p = Some (Standalone.set_reg v
                               (round_robin (Standalone.next_reg ctx + Z.of_nat k)))) ∧
  (∀ p, p ∉ targets → heap' !! p = heap !! p) ∧
  (∀ inst p, inst ∈ Standalone.visited_instructions ctx →
     Standalone.dest inst = Some p → ¬ unassigned heap' p).
Proof.
  intros targets heap' ctx' Hn Hlen.
  destruct (allocate_fold_spec (Standalone.visited_instructions ctx) heap
              (Standalone.next_reg ctx) Hn Hlen) as (H1 & H2 & H3).
  assert (Hh : heap' = (foldl Standalone.allocate_inst
                          (heap, Standalone.next_reg ctx)
                          (Standalone.visited_instructions ctx)).1).
  { unfold heap', Standalone.jit_allocate_registers. by destruct (foldl _ _ _). }
  assert (Hc : Standalone.next_reg ctx'
               = (foldl Standalone.allocate_inst
                    (heap, Standalone.next_reg ctx)
                    (Standalone.visited_instructions ctx)).2).
  { unfold ctx', Standalone.jit_allocate_registers. by destruct (foldl _ _ _). }
  rewrite Hh, Hc. split; [done|]. split; [|split; [done|]].
  - intros k p Hk. destruct (H2 k p Hk) as (v & ? & ? & ?). eauto.
  - intros inst p Hin Hd Hu.
    destruct (decide (p ∈ targets)) as [Ht|Ht].
    + apply list_elem_of_lookup_1 in Ht as [k Hk].
      destruct (H2 k p Hk) as (v & _ & _ & Hv).
      unfold unassigned in Hu. rewrite Hv in Hu. simpl in Hu.
      pose proof (available_regs_general_purpose _
        (round_robin_available (Standalone.next_reg ctx + Z.of_nat k))).
      injection Hu as Hu. lia.
    + apply Ht. unfold targets, allocation_targets.
      rewrite elem_of_dedup, list_elem_of_filter. split.
      * unfold unassigned in *. by rewrite <- (H3 p Ht).
      * apply list_elem_of_omap. eauto.
Qed.

(** ** What a compilation runs *)

(** C5 as stated fails: the compilation of [f(a, b) = a + b] for x86_64
    succeeds, and afterwards the function's register allocator is as
    [jit_function_create] left it, with an empty table: no register has
    been assigned to the destination of the [Add]. *)
Lemma compile_assigns_no_register :
  let r := jit_function_compile (ready_state JIT_ARCH_X86_64) (Some scenario1) in
  res_code r = Some 0 ∧
  ∃ f', res_func r = Some f' ∧
    scenario1_add ∈ all_instructions f' ∧
    value_id (inst_dest scenario1_add) = 3 ∧
    func_reg_allocator f' = mk_reg_allocator [] [] 0 16 ∧
    ¬ records_assignment f'.
Proof.
  cbv zeta. split; [reflexivity|]. eexists. split; [reflexivity|].
  split; [left|]. split; [reflexivity|]. split; [reflexivity|].
  intros (k & vr & H). by destruct k.
Qed.

Lemma optimised_reg_allocator f :
  func_reg_allocator (optimised f) = func_reg_allocator f.
Proof.
  unfold optimised, constant_folding. rewrite eliminate_dead_code_spec.
  by destruct (fold_blocks _ _).
Qed.

(** C5, amended.  A successful [jit_function_compile] runs, in this
    order, dead-code elimination, constant folding and the code generator
    of the context's target on the function; it stores the generated code
    at the cursor, returns the cursor and advances it by the code size.
    It runs no register allocation: the function's register allocator is
    left as it was.  Round-robin allocation is what
    [jit_allocate_registers] of the standalone x86-64 JIT does, on its own
    IR: as long as its [int] counter does not overflow, the destinations
    without register ([reg == -1]), taken in program order, each value
    once, get [available_regs[(next_reg + k) % 14]] for k = 0, 1, ...,
    registers of the general-purpose set without RSP and RBP; values that
    have a register keep it, and afterwards every visited destination has
    one. *)
Theorem compile_pipeline_and_allocator :
  (∀ (st : jit_state) (f : jit_function_t) (code : Z),
     let r := jit_function_compile st (Some f) in
     res_code r = Some code →
     ∃ gen,
       codegen_for (ctx_target_arch (g_jit_context st)) = Some gen ∧
       code = ctx_code_ptr (g_jit_context st) ∧
       res_func r = Some (constant_folding (eliminate_dead_code f)) ∧
       func_reg_allocator (constant_folding (eliminate_dead_code f))
         = func_reg_allocator f ∧
       res_written r = gen (constant_folding (eliminate_dead_code f)) ∧
       res_state r = advance_code_ptr st (Z.of_nat (length (res_written r)))) ∧
  (∀ (heap : gmap N Standalone.ssa_value_t) (ctx : Standalone.jit_context_t),
     let targets := allocation_targets heap (Standalone.visited_instructions ctx) in
     let heap' := (Standalone.jit_allocate_registers heap ctx).1 in
     let ctx' := (Standalone.jit_allocate_registers heap ctx).2 in
     0 <= Standalone.next_reg ctx →
     Standalone.next_reg ctx + Z.of_nat (length targets) < 2 ^ 31 →
     Standalone.next_reg ctx' = Standalone.next_reg ctx + Z.of_nat (length targets) ∧
     (∀ (k : nat) p, targets !! k = Some p →
        ∃ v r,
          heap !! p = Some v ∧
          Standalone.available_regs
            !! Z.to_nat ((Standalone.next_reg ctx + Z.of_nat k) `mod` 14) = Some r ∧
          r ≠ Standalone.RSP ∧ r ≠ Standalone.RBP ∧
          heap' !! p = Some (Standalone.set_reg v r)) ∧
     (∀ p, p ∉ targets → heap' !! p = heap !! p) ∧
     (∀ inst p, inst ∈ Standalone.visited_instructions ctx →
        Standalone.dest inst = Some p → ¬ unassigned heap' p)).
Proof.
  split.
  - intros st f code r Hr. unfold r in *.
    destruct (jit_function_compile_cases st f)
      as [[_ Hc]|[(_ & _ & Hc)|(gen & _ & Hg & Hc)]];
      rewrite Hc in *; simpl in Hr; try discriminate Hr.
    exists gen. injection Hr as <-. simpl.
    repeat split; try done. apply optimised_reg_allocator.
  - intros heap ctx targets heap' ctx' Hn Hlen.
    destruct (jit_allocate_registers_spec heap ctx Hn Hlen) as (H1 & H2 & H3 & H4).
    split; [done|]. split; [|split; done].
    intros k p Hk. destruct (H2 k p Hk) as (v & Hv & Hv').
    set (j := Standalone.next_reg ctx + Z.of_nat k) in *.
    pose proof (round_robin_available j) as Hav.
    pose proof (available_regs_general_purpose _ Hav) as (_ & Hsp & Hbp).
    exists v, (round_robin j). split; [done|]. split; [|done].
    unfold round_robin in *. change (Z.of_nat (length Standalone.available_regs)) with 14 in *.
    destruct (Standalone.available_regs !! Z.to_nat (j `mod` 14)) eqn:E; [done|].
    apply lookup_ge_None in E. pose proof (Z.mod_pos_bound j 14). simpl in E. lia.
Qed.

Lemma compile_pipeline_and_allocator_witness :
  res_func (jit_function_compile (ready_state JIT_ARCH_X86_64) (Some scenario1))
    = Some (constant_folding (eliminate_dead_code scenario1)) ∧
  (Standalone.jit_allocate_registers example_heap example_ctx).1 !! 10%N
    = Some (Standalone.mk_ssa_value 0 0 Standalone.R15) ∧
  (Standalone.jit_allocate_registers example_heap example_ctx).1 !! 12%N
    = Some (Standalone.mk_ssa_value 2 0 Standalone.RAX) ∧
  (Standalone.jit_allocate_registers example_heap example_ctx).1 !! 11%N
    = Some (Standalone.mk_ssa_value 1 0 Standalone.RDI).
Proof.
  destruct compile_pipeline_and_allocator as [Hcompile Halloc].
  destruct (Hcompile (ready_state JIT_ARCH_X86_64) scenario1 0 eq_refl)
    as (gen & _ & _ & Hf & _).
  split; [exact Hf|].
  assert (H0 : 0 <= Standalone.next_reg example_ctx) by (vm_compute; discriminate).
  assert (H1 : Standalone.next_reg example_ctx
               + Z.of_nat (length (allocation_targets example_heap
                   (Standalone.visited_instructions example_ctx))) < 2 ^ 31)
    by (vm_compute; reflexivity).
  destruct (Halloc example_heap example_ctx H0 H1) as (_ & Hk & Hother & _).
  split; [|split].
  - destruct (Hk 0%nat 10%N eq_refl) as (v & r & Hv & Hr & _ & _ & ->).
    vm_compute in Hv, Hr. by injection Hv as <-; injection Hr as <-.
  - destruct (Hk 1%nat 12%N eq_refl) as (v & r & Hv & Hr & _ & _ & ->).
    vm_compute in Hv, Hr. by injection Hv as <-; injection Hr as <-.
  - rewrite Hother; [reflexivity|].
    change (allocation_targets example_heap
              (Standalone.visited_instructions example_ctx))
      with [10%N; 12%N].
    rewrite !not_elem_of_cons. split; [done|]. split; [done|]. apply not_elem_of_nil.
Defined.

(** ** Code emission *)

Lemma all_register_pairs_sound P dst src :
  all_register_pairs P = true →
  0 <= dst < 16 → 0 <= src < 16 → P dst src = true.
Proof.
  unfold all_register_pairs. rewrite forallb_forall. intros H Hd Hs.
  assert (Hin : ∀ x, 0 <= x < 16 → In x (seqZ 0 16)).
  { intros x Hx. apply list_elem_of_In, elem_of_seqZ. lia. }
  specialize (H dst (Hin dst Hd)). rewrite forallb_forall in H. auto.
Qed.

(** The bit patterns as arithmetic: REX.W with B and R taken from bit 3
    of the registers, opcode 01, ModR/M with mod = 3, reg = src, r/m =
    dst. *)
Lemma add_reg_reg_bytes_fields dst src :
  0 <= dst < 16 → 0 <= src < 16 →
  add_reg_reg_bytes dst src
  = [0x48 + dst `div` 8 + 4 * (src `div` 8);
     0x01;
     0xC0 + 8 * (src `mod` 8) + dst `mod` 8].
Proof.
  intros Hd Hs.
  pose proof (all_register_pairs_sound
    (λ d s, bool_decide (add_reg_reg_bytes d s
                         = [0x48 + d `div` 8 + 4 * (s `div` 8); 0x01;
                            0xC0 + 8 * (s `mod` 8) + d `mod` 8]))
    dst src) as H.
  simpl in H. eapply bool_decide_eq_true_1, H; [by vm_compute|done|done].
Qed.

Lemma add_reg_reg_bytes_injective dst src dst2 src2 :
  0 <= dst < 16 → 0 <= src < 16 → 0 <= dst2 < 16 → 0 <= src2 < 16 →
  add_reg_reg_bytes dst2 src2 = add_reg_reg_bytes dst src →
  dst2 = dst ∧ src2 = src.
Proof.
  intros Hd Hs Hd2 Hs2. rewrite !add_reg_reg_bytes_fields by done.
  intros [= Hrex Hmodrm]. Z.to_euclidean_division_equations. lia.
Qed.

Lemma emit_byte_in_range ctx byte :
  0 <= Standalone.code_size ctx < Standalone.CODE_BUFFER_SIZE →
  Standalone.jit_emit_byte ctx byte
  = Standalone.mk_jit_context (Standalone.blocks ctx) (Standalone.block_count ctx)
      (<[Z.to_nat (Standalone.code_size ctx) := wrap_u8 byte]> (Standalone.code_buffer ctx))
      (Standalone.code_size ctx + 1) (Standalone.next_ssa_id ctx)
      (Standalone.next_reg ctx).
Proof.
  intros H. unfold Standalone.jit_emit_byte.
  rewrite bool_decide_eq_true_2; [done|lia].
Qed.

Lemma take_drop_three (buf : list Z) (n : nat) a b c :
  (n + 3 <= length buf)%nat →
  take 3 (drop n (<[S (S n) := c]> (<[S n := b]> (<[n := a]> buf)))) = [a; b; c].
Proof.
  intros Hn. apply list_eq. intros i.
  destruct (decide (i < 3)%nat) as [Hi|Hi].
  - rewrite lookup_take_lt, lookup_drop by done.
    destruct i as [|[|[|i]]]; [| | |lia]; simpl.
    + rewrite Nat.add_0_r, !list_lookup_insert_ne by lia.
      rewrite list_lookup_insert_eq; [done|lia].
    + replace (n + 1)%nat with (S n) by lia.
      rewrite list_lookup_insert_ne by lia.
      rewrite list_lookup_insert_eq; [done|rewrite length_insert; lia].
    + replace (n + 2)%nat with (S (S n)) by lia.
      rewrite list_lookup_insert_eq; [done|rewrite !length_insert; lia].
  - rewrite lookup_take_ge by lia. destruct i as [|[|[|i]]]; (lia || done).
Qed.

Lemma jit_emit_add_reg_reg_spec ctx dst src :
  0 <= Standalone.code_size ctx →
  Standalone.code_size ctx + 3 <= Standalone.CODE_BUFFER_SIZE →
  length (Standalone.code_buffer ctx) = Z.to_nat Standalone.CODE_BUFFER_SIZE →
  let ctx' := Standalone.jit_emit_add_reg_reg ctx dst src in
  Standalone.code_size ctx' = Standalone.code_size ctx + 3 ∧
  emitted_bytes ctx ctx' = add_reg_reg_bytes dst src.
Proof.
  intros H0 H3 Hlen. cbv zeta. unfold Standalone.jit_emit_add_reg_reg.
  assert (Hsize : Standalone.CODE_BUFFER_SIZE = 4096) by reflexivity.
  rewrite (emit_byte_in_range ctx) by lia.
  rewrite (emit_byte_in_range (Standalone.mk_jit_context _ _ _ _ _ _))
    by (simpl; lia).
  simpl.
  rewrite (emit_byte_in_range (Standalone.mk_jit_context _ _ _ _ _ _))
    by (simpl; lia).
  simpl.
  split; [lia|]. unfold emitted_bytes. simpl.
  replace (Z.to_nat (Standalone.code_size ctx + 1 + 1 + 1 - Standalone.code_size ctx))
    with 3%nat by lia.
  replace (Z.to_nat (Standalone.code_size ctx + 1))
    with (S (Z.to_nat (Standalone.code_size ctx))) by lia.
  replace (Z.to_nat (Standalone.code_size ctx + 1 + 1))
    with (S (S (Z.to_nat (Standalone.code_size ctx)))) by lia.
  apply take_drop_three. rewrite Hlen. lia.
Qed.

(** C6 as stated fails: the two back ends of the engine emit the very
    same code for two [Add] instructions whose destinations and operands
    are all different values, so the code is not a function of anything
    assigned to the operands; the x86_64 ModR/M byte is C0 (register 0 in
    both fields) each time. *)
Lemma codegen_ignores_operands :
  inst_opcode scenario1_add = JIT_OP_ADD ∧ inst_opcode other_add = JIT_OP_ADD ∧
  value_id (inst_dest scenario1_add) ≠ value_id (inst_dest other_add) ∧
  value_id (inst_src1 scenario1_add) ≠ value_id (inst_src1 other_add) ∧
  value_id (inst_src2 scenario1_add) ≠ value_id (inst_src2 other_add) ∧
  ¬ (emit_x86_64 scenario1_add ≠ emit_x86_64 other_add) ∧
  ¬ (emit_arm64 scenario1_add ≠ emit_arm64 other_add) ∧
  emit_x86_64 other_add = [0x48; 0x01; 0xc0].
Proof. repeat split; try discriminate; try reflexivity; intros H; by apply H. Qed.

(** C6, amended.  The code generators of the engine emit one fixed code
    per arithmetic opcode, whatever the operands: on x86_64 the bytes
    48 01 C0 for Add, 48 29 C0 for Sub and 48 0F AF C0 for Mul (REX.W
    prefix, opcode, ModR/M byte C0), on ARM64 the words 8B000000,
    CB000000 and 9B007C00; two instructions with the same arithmetic
    opcode get the same code.  An encoding parameterised by registers is
    what [jit_emit_add_reg_reg] of the standalone x86-64 JIT produces, for
    ADD only: with room for three bytes in the buffer it appends the REX
    prefix [48 + dst/8 + 4 * (src/8)], the opcode 01 and the ModR/M byte
    [C0 + 8 * (src mod 8) + dst mod 8], and different pairs of registers
    (numbers 0 to 15) give different byte sequences. *)
Theorem arithmetic_encodings :
  (∀ inst : jit_instruction_t,
     (inst_opcode inst = JIT_OP_ADD →
        emit_x86_64 inst = [0x48; 0x01; 0xc0] ∧ emit_arm64 inst = [0x8b000000]) ∧
     (inst_opcode inst = JIT_OP_SUB →
        emit_x86_64 inst = [0x48; 0x29; 0xc0] ∧ emit_arm64 inst = [0xcb000000]) ∧
     (inst_opcode inst = JIT_OP_MUL →
        emit_x86_64 inst = [0x48; 0x0f; 0xaf; 0xc0] ∧ emit_arm64 inst = [0x9b007c00])) ∧
  (∀ inst1 inst2 : jit_instruction_t,
     is_arith (inst_opcode inst1) = true →
     inst_opcode inst2 = inst_opcode inst1 →
     emit_x86_64 inst2 = emit_x86_64 inst1 ∧ emit_arm64 inst2 = emit_arm64 inst1) ∧
  (∀ (ctx : Standalone.jit_context_t) (dst src : Z),
     0 <= dst < 16 → 0 <= src < 16 →
     0 <= Standalone.code_size ctx →
     Standalone.code_size ctx + 3 <= Standalone.CODE_BUFFER_SIZE →
     length (Standalone.code_buffer ctx) = Z.to_nat Standalone.CODE_BUFFER_SIZE →
     let ctx' := Standalone.jit_emit_add_reg_reg ctx dst src in
     Standalone.code_size ctx' = Standalone.code_size ctx + 3 ∧
     emitted_bytes ctx ctx'
       = [0x48 + dst `div` 8 + 4 * (src `div` 8);
          0x01;
          0xC0 + 8 * (src `mod` 8) + dst `mod` 8] ∧
     (∀ dst2 src2 : Z,
        0 <= dst2 < 16 → 0 <= src2 < 16 →
        emitted_bytes ctx (Standalone.jit_emit_add_reg_reg ctx dst2 src2)
          = emitted_bytes ctx ctx' →
        dst2 = dst ∧ src2 = src)).
Proof.
  split; [|split].
  - intros inst. unfold emit_x86_64, emit_arm64.
    split; [|split]; intros Hop; rewrite Hop; split; reflexivity.
  - intros inst1 inst2 Ha Hop. unfold emit_x86_64, emit_arm64. rewrite Hop.
    destruct (inst_opcode inst1); try discriminate Ha; done.
  - intros ctx dst src Hd Hs H0 H3 Hlen. cbv zeta.
    destruct (jit_emit_add_reg_reg_spec ctx dst src H0 H3 Hlen) as [Hsz Hb].
    split; [exact Hsz|]. split.
    + rewrite Hb. by apply add_reg_reg_bytes_fields.
    + intros dst2 src2 Hd2 Hs2.
      destruct (jit_emit_add_reg_reg_spec ctx dst2 src2 H0 H3 Hlen) as [_ Hb2].
      rewrite Hb, Hb2. by apply add_reg_reg_bytes_injective.
Qed.

Lemma arithmetic_encodings_witness :
  emit_x86_64 other_add = emit_x86_64 scenario1_add ∧
  emitted_bytes example_ctx
    (Standalone.jit_emit_add_reg_reg example_ctx Standalone.RAX Standalone.RSI)
  = [0x48; 0x01; 0xF0].
Proof.
  destruct arithmetic_encodings as (_ & Hsame & Hemit).
  split.
  - exact (proj1 (Hsame scenario1_add other_add eq_refl eq_refl)).
  - refine (proj1 (proj2 (Hemit example_ctx Standalone.RAX Standalone.RSI _ _ _ _ _)));
      first [reflexivity | vm_compute; split; [discriminate|reflexivity]
            | vm_compute; discriminate].
Defined.

(** * Further properties of jit_engine.c *)

(** ** Dead-code elimination *)

Lemma existsb_unmarked_seed func :
  existsb (λ b, existsb dce_marks (block_instructions b)) (func_blocks func) = true
  ↔ ∃ inst, inst ∈ all_instructions func ∧ unmarked_seed inst.
Proof.
  unfold all_instructions, unmarked_seed.
  rewrite existsb_exists. split.
  - intros (b & Hb & Hex). apply existsb_exists in Hex as (inst & Hi & Hm).
    exists inst. split.
    + apply list_elem_of_In, in_concat. exists (block_instructions b).
      split; [by apply in_map|done].
    + rewrite dce_marks_side_effect in Hm. apply andb_prop in Hm as [Hl Hs].
      split; [by apply negb_true_iff|done].
  - intros (inst & Hin & Hl & Hs).
    apply list_elem_of_In, in_concat in Hin as (insts & Hb & Hi).
    apply in_map_iff in Hb as (b & <- & Hb).
    exists b. split; [done|].
    apply existsb_exists. exists inst. split; [done|].
    rewrite dce_marks_side_effect, Hl, Hs. done.
Qed.

(** X1.  The [while (changed)] loop of [eliminate_dead_code] terminates
    for every function: it leaves after its first iteration if no
    instruction with a side-effecting opcode is still unmarked, and after
    its second iteration otherwise. *)
Theorem eliminate_dead_code_terminates (func : jit_function_t) :
  (∀ fuel, dce_loop (S (S fuel)) func = Some (eliminate_dead_code func)) ∧
  (dce_loop 1 func = None ↔
   ∃ inst, inst ∈ all_instructions func ∧ unmarked_seed inst) ∧
  ((¬ ∃ inst, inst ∈ all_instructions func ∧ unmarked_seed inst) →
   dce_loop 1 func = Some (eliminate_dead_code func)).
Proof.
  split; [|split].
  - intros fuel. by rewrite dce_loop_two, eliminate_dead_code_spec.
  - rewrite <- existsb_unmarked_seed. simpl. rewrite dce_pass_spec.
    destruct (existsb _ (func_blocks func)); split; (done || congruence).
  - rewrite <- existsb_unmarked_seed. simpl. rewrite dce_pass_spec.
    rewrite eliminate_dead_code_spec.
    destruct (existsb _ (func_blocks func)); [intros []; done|done].
Qed.

Lemma eliminate_dead_code_terminates_witness :
  dce_loop 1 empty_function = Some (eliminate_dead_code empty_function).
Proof.
  apply (eliminate_dead_code_terminates empty_function).
  intros (inst & Hin & _). vm_compute in Hin. by apply elem_of_nil in Hin.
Defined.

Lemma mark_with_live inst :
  mark inst = with_live inst (inst_is_live inst || side_effect (inst_opcode inst)).
Proof.
  unfold mark. rewrite dce_marks_side_effect.
  destruct inst as [op d s1 s2 tb eb lv]; simpl.
  by destruct lv, (side_effect op).
Qed.

(** X2.  What dead-code elimination leaves behind, instruction by
    instruction: the [i]-th instruction is live afterwards exactly if it
    was live before or its opcode is Store, Return or Call, and nothing
    else about it changes.  The pass never clears a liveness flag. *)
Theorem eliminate_dead_code_liveness
    (func : jit_function_t) (i : nat) (old : jit_instruction_t) :
  all_instructions func !! i = Some old →
  all_instructions (eliminate_dead_code func) !! i
  = Some (with_live old (inst_is_live old || side_effect (inst_opcode old))).
Proof.
  intros Hi.
  rewrite eliminate_dead_code_spec, all_instructions_mark_func, list_lookup_fmap, Hi.
  simpl. by rewrite mark_with_live.
Qed.

Lemma eliminate_dead_code_liveness_witness :
  all_instructions (eliminate_dead_code scenario1) !! 0%nat
  = Some (with_live scenario1_add false).
Proof. exact (eliminate_dead_code_liveness scenario1 0 scenario1_add eq_refl). Defined.

(** X3.  Dead-code elimination is idempotent: a second run changes
    nothing. *)
Theorem eliminate_dead_code_idempotent (func : jit_function_t) :
  eliminate_dead_code (eliminate_dead_code func) = eliminate_dead_code func.
Proof. rewrite !eliminate_dead_code_spec. apply mark_func_idempotent. Qed.

(** ** Constant folding *)

Lemma fold_inst_result_not_foldable n inst : foldable (fold_inst n inst).1 = false.
Proof.
  unfold fold_inst, foldable.
  destruct inst as [op d [i1 t1 c1 v1] [i2 t2 c2 v2] tb eb lv]; simpl.
  destruct c1, c2, op; reflexivity.
Qed.

Lemma fold_insts_settled n insts :
  Forall (λ inst, foldable inst = false) insts → fold_insts n insts = (insts, n).
Proof.
  revert n. induction insts as [|inst rest IH]; intros n Hall; [done|].
  apply Forall_cons_1 in Hall as [Hi Hrest]. simpl.
  pose proof (fold_inst_not_foldable n inst Hi) as H1.
  pose proof (fold_inst_counter n inst) as H2. rewrite Hi in H2.
  destruct (fold_inst n inst) as [inst' n1]. simpl in *. subst.
  by rewrite IH.
Qed.

Lemma fold_insts_result_settled n insts :
  Forall (λ inst, foldable inst = false) (fold_insts n insts).1.
Proof.
  revert n. induction insts as [|inst rest IH]; intros n; simpl; [constructor|].
  pose proof (fold_inst_result_not_foldable n inst) as Hi.
  destruct (fold_inst n inst) as [inst' n1]. specialize (IH n1).
  destruct (fold_insts n1 rest). by constructor.
Qed.

Lemma fold_blocks_settled n blocks :
  Forall (λ b, Forall (λ inst, foldable inst = false) (block_instructions b)) blocks →
  fold_blocks n blocks = (blocks, n).
Proof.
  revert n. induction blocks as [|b rest IH]; intros n Hall; [done|].
  apply Forall_cons_1 in Hall as [Hb Hrest]. simpl.
  rewrite fold_insts_settled by done. rewrite IH by done.
  by destruct b.
Qed.

Lemma fold_blocks_result_settled n blocks :
  Forall (λ b, Forall (λ inst, foldable inst = false) (block_instructions b))
         (fold_blocks n blocks).1.
Proof.
  revert n. induction blocks as [|b rest IH]; intros n; simpl; [constructor|].
  pose proof (fold_insts_result_settled n (block_instructions b)) as Hb.
  destruct (fold_insts n (block_instructions b)) as [insts' n1].
  specialize (IH n1). destruct (fold_blocks n1 rest). by constructor.
Qed.

Lemma constant_folding_settled func :
  Forall (λ b, Forall (λ inst, foldable inst = false) (block_instructions b))
         (func_blocks func) →
  constant_folding func = func.
Proof.
  intros H. unfold constant_folding. rewrite fold_blocks_settled by done.
  by destruct func.
Qed.

Lemma constant_folding_twice func :
  constant_folding (constant_folding func) = constant_folding func.
Proof.
  apply constant_folding_settled. unfold constant_folding.
  pose proof (fold_blocks_result_settled (func_next_ssa_id func) (func_blocks func)) as H.
  by destruct (fold_blocks (func_next_ssa_id func) (func_blocks func)).
Qed.

(** X4.  Constant folding is idempotent: after one pass no instruction
    has an arithmetic opcode with two constant operands any more, so a
    second pass changes neither an instruction nor the SSA counter. *)
Theorem constant_folding_idempotent (func : jit_function_t) :
  Forall (λ inst, foldable inst = false) (all_instructions (constant_folding func)) ∧
  constant_folding (constant_folding func) = constant_folding func.
Proof.
  split.
  - destruct (constant_folding_flat func) as [-> _]. apply fold_insts_result_settled.
  - apply constant_folding_twice.
Qed.

Lemma mark_fold_inst n inst :
  dce_marks inst = false → dce_marks (fold_inst n inst).1 = false.
Proof.
  intros Hm. destruct (fold_inst_in_place n inst) as [->|(fresh & result & ->)]; [done|].
  rewrite dce_marks_side_effect in *. simpl. by rewrite andb_false_r.
Qed.

Lemma mark_func_fixed func :
  Forall (λ b, Forall (λ inst, dce_marks inst = false) (block_instructions b))
         (func_blocks func) →
  mark_func func = func.
Proof.
  intros Hall. unfold mark_func, set_blocks. destruct func as [bs c nb n ra]. simpl in *.
  f_equal. induction Hall as [|b rest Hb _ IH]; [done|]. simpl. rewrite IH. f_equal.
  unfold mark_block, set_instructions. destruct b as [bid insts bn bv]. simpl in *.
  f_equal. induction Hb as [|inst insts' Hi _ IHi]; [done|]. simpl.
  rewrite IHi. f_equal. unfold mark. by rewrite Hi.
Qed.

Lemma fold_blocks_keeps_marked n blocks :
  Forall (λ b, Forall (λ inst, dce_marks inst = false) (block_instructions b)) blocks →
  Forall (λ b, Forall (λ inst, dce_marks inst = false) (block_instructions b))
         (fold_blocks n blocks).1.
Proof.
  revert n. induction blocks as [|b rest IH]; intros n Hall; simpl; [constructor|].
  apply Forall_cons_1 in Hall as [Hb Hrest].
  assert (Hi : ∀ m, Forall (λ inst, dce_marks inst = false)
                           (fold_insts m (block_instructions b)).1).
  { clear -Hb. induction Hb as [|inst insts Hinst _ IHi]; intros m; simpl; [constructor|].
    pose proof (mark_fold_inst m inst Hinst) as H1.
    destruct (fold_inst m inst) as [inst' m1]. specialize (IHi m1).
    destruct (fold_insts m1 insts). by constructor. }
  specialize (Hi n).
  destruct (fold_insts n (block_instructions b)) as [insts' n1].
  specialize (IH n1 Hrest). destruct (fold_blocks n1 rest). by constructor.
Qed.

Lemma mark_func_all_marked func :
  Forall (λ b, Forall (λ inst, dce_marks inst = false) (block_instructions b))
         (func_blocks (mark_func func)).
Proof.
  simpl. induction (func_blocks func) as [|b rest IH]; constructor; [|done].
  simpl. induction (block_instructions b); constructor; [apply dce_marks_mark|done].
Qed.

(** X5.  The two passes together are idempotent, so compiling a function
    again leaves its IR as the first compilation left it and generates
    the same code once more: the second call stores a byte-identical copy
    right behind the first one. *)
Theorem recompilation_repeats_code
    (st : jit_state) (f : jit_function_t) (code : Z) :
  let r1 := jit_function_compile st (Some f) in
  let r2 := jit_function_compile (res_state r1) (res_func r1) in
  optimised (optimised f) = optimised f ∧
  (res_code r1 = Some code →
   res_func r2 = res_func r1 ∧
   res_written r2 = res_written r1 ∧
   res_code r2 = Some (code + Z.of_nat (length (res_written r1)))).
Proof.
  cbv zeta.
  assert (Hopt : optimised (optimised f) = optimised f).
  { unfold optimised at 1. rewrite eliminate_dead_code_spec.
    rewrite mark_func_fixed.
    - apply constant_folding_twice.
    - unfold optimised, constant_folding. rewrite eliminate_dead_code_spec.
      pose proof (fold_blocks_keeps_marked (func_next_ssa_id (mark_func f))
                    (func_blocks (mark_func f)) (mark_func_all_marked f)) as H.
      by destruct (fold_blocks _ _). }
  split; [exact Hopt|]. intros Hr.
  destruct (jit_function_compile_cases st f)
    as [[_ Hc]|[(_ & _ & Hc)|(gen & Hi & Hg & Hc)]];
    rewrite Hc in Hr; simpl in Hr; try discriminate Hr.
  injection Hr as <-. rewrite Hc. cbn [res_state res_func res_written res_code].
  rewrite (compile_succeeds_regardless_of_cursor _ (optimised f) gen) by done.
  cbn [res_state res_func res_written res_code]. by rewrite Hopt.
Qed.

Lemma recompilation_repeats_code_witness :
  let r1 := jit_function_compile (ready_state JIT_ARCH_X86_64) (Some scenario2) in
  res_written (jit_function_compile (res_state r1) (res_func r1)) = res_written r1.
Proof.
  exact (proj1 (proj2 (proj2 (recompilation_repeats_code
                               (ready_state JIT_ARCH_X86_64) scenario2 0) eq_refl))).
Defined.

(** ** The two passes together *)

Lemma fold_inst_mark n inst :
  fold_inst n (mark inst) = (mark (fold_inst n inst).1, (fold_inst n inst).2).
Proof.
  unfold fold_inst, mark, dce_marks.
  destruct inst as [op d [i1 t1 c1 v1] [i2 t2 c2 v2] tb eb lv]; simpl.
  destruct c1, c2, lv, op; reflexivity.
Qed.

Lemma fold_insts_mark n insts :
  fold_insts n (map mark insts)
  = (map mark (fold_insts n insts).1, (fold_insts n insts).2).
Proof.
  revert n. induction insts as [|inst rest IH]; intros n; [done|].
  simpl. rewrite fold_inst_mark.
  destruct (fold_inst n inst) as [inst' n1]. simpl. rewrite IH.
  by destruct (fold_insts n1 rest).
Qed.

Lemma fold_blocks_mark n blocks :
  fold_blocks n (map mark_block blocks)
  = (map mark_block (fold_blocks n blocks).1, (fold_blocks n blocks).2).
Proof.
  revert n. induction blocks as [|b rest IH]; intros n; [done|].
  simpl. rewrite fold_insts_mark.
  destruct (fold_insts n (block_instructions b)) as [insts' n1]. simpl. rewrite IH.
  by destruct (fold_blocks n1 rest).
Qed.

Lemma emit_mark inst :
  emit_x86_64 (mark inst) = emit_x86_64 inst ∧ emit_arm64 (mark inst) = emit_arm64 inst.
Proof. unfold mark. by destruct (dce_marks inst). Qed.

Lemma codegen_mark_func func :
  codegen_x86_64 (mark_func func) = codegen_x86_64 func ∧
  codegen_arm64 (mark_func func) = codegen_arm64 func.
Proof.
  unfold codegen_arm64.
  rewrite !codegen_x86_64_flat, !codegen_arm64_words_flat, all_instructions_mark_func.
  rewrite !map_map.
  rewrite (map_ext (λ x, emit_x86_64 (mark x)) emit_x86_64)
    by (intros inst; apply emit_mark).
  rewrite (map_ext (λ x, emit_arm64 (mark x)) emit_arm64)
    by (intros inst; apply emit_mark).
  done.
Qed.

(** X6.  The two passes do not interfere.  Dead-code elimination and
    constant folding commute, and the liveness marks have no influence on
    the generated code: for both back ends, the code of a compilation is
    the code of the function after constant folding alone, and dead-code
    elimination on its own never changes the code of a function. *)
Theorem liveness_never_changes_code (func : jit_function_t) :
  constant_folding (eliminate_dead_code func)
    = eliminate_dead_code (constant_folding func) ∧
  codegen_x86_64 (optimised func) = codegen_x86_64 (constant_folding func) ∧
  codegen_arm64 (optimised func) = codegen_arm64 (constant_folding func) ∧
  codegen_x86_64 (eliminate_dead_code func) = codegen_x86_64 func ∧
  codegen_arm64 (eliminate_dead_code func) = codegen_arm64 func.
Proof.
  assert (Hcomm : constant_folding (eliminate_dead_code func)
                  = eliminate_dead_code (constant_folding func)).
  { rewrite !eliminate_dead_code_spec. unfold constant_folding, mark_func, set_blocks.
    simpl. rewrite fold_blocks_mark.
    by destruct (fold_blocks (func_next_ssa_id func) (func_blocks func)). }
  split; [exact Hcomm|]. unfold optimised. rewrite Hcomm, !eliminate_dead_code_spec.
  destruct (codegen_mark_func (constant_folding func)) as [-> ->].
  destruct (codegen_mark_func func) as [-> ->]. done.
Qed.

(** ** The code cache *)

Lemma written_offsets_range st r o :
  o ∈ written_offsets st r ↔
  ctx_code_ptr (g_jit_context st) <= o
    < ctx_code_ptr (g_jit_context st) + Z.of_nat (length (res_written r)).
Proof.
  unfold written_offsets. rewrite elem_of_lookup_imap. split.
  - intros (i & b & -> & Hi). apply lookup_lt_Some in Hi. lia.
  - intros Ho.
    destruct (lookup_lt_is_Some_2 (res_written r)
                (Z.to_nat (o - ctx_code_ptr (g_jit_context st)))) as [b Hb]; [lia|].
    exists (Z.to_nat (o - ctx_code_ptr (g_jit_context st))), b.
    split; [lia|done].
Qed.

Lemma compile_cursor st func :
  let r := jit_function_compile st func in
  ctx_code_ptr (g_jit_context (res_state r))
  = ctx_code_ptr (g_jit_context st) + Z.of_nat (length (res_written r)).
Proof.
  cbv zeta. destruct func as [f|]; [|simpl; lia].
  destruct (jit_function_compile_cases st f)
    as [[_ ->]|[(_ & _ & ->)|(gen & _ & _ & ->)]]; simpl; lia.
Qed.

(** X7.  The code cache is append-only.  A compilation, successful or
    not, moves the cursor forward by exactly the number of bytes it
    stored and changes nothing else in the statics; the bytes of a later
    compilation therefore all lie behind the bytes of an earlier one, and
    code that was generated is never overwritten. *)
Theorem compilations_never_overlap
    (st : jit_state) (func1 func2 : option jit_function_t) :
  let r1 := jit_function_compile st func1 in
  let r2 := jit_function_compile (res_state r1) func2 in
  res_state r1 = advance_code_ptr st (Z.of_nat (length (res_written r1))) ∧
  (∀ o1 o2,
     o1 ∈ written_offsets st r1 →
     o2 ∈ written_offsets (res_state r1) r2 →
     ctx_code_ptr (g_jit_context st) <= o1 < o2).
Proof.
  cbv zeta. split.
  - destruct st as [[ta cc cp cs ci] ca bc].
    destruct func1 as [f|];
      [|unfold advance_code_ptr; simpl; by rewrite Z.add_0_r].
    destruct (jit_function_compile_cases
                (mk_state (mk_context ta cc cp cs ci) ca bc) f)
      as [[_ ->]|[(_ & _ & ->)|(gen & _ & _ & ->)]];
      unfold advance_code_ptr; simpl; by rewrite ?Z.add_0_r.
  - intros o1 o2 H1 H2.
    apply written_offsets_range in H1. apply written_offsets_range in H2.
    pose proof (compile_cursor st func1) as Hc. cbv zeta in Hc. lia.
Qed.

Lemma compilations_never_overlap_witness :
  let st := ready_state JIT_ARCH_X86_64 in
  let r1 := jit_function_compile st (Some scenario1) in
  let r2 := jit_function_compile (res_state r1) (Some scenario2) in
  written_offsets (res_state r1) r2 !! 0%nat = Some 12 ∧ 0 <= 11 < 12.
Proof.
  cbv zeta. split; [reflexivity|].
  refine (proj2 (compilations_never_overlap (ready_state JIT_ARCH_X86_64)
                   (Some scenario1) (Some scenario2)) 11 12 _ _).
  - apply written_offsets_range. vm_compute. split; [discriminate|reflexivity].
  - apply written_offsets_range. vm_compute. split; [discriminate|reflexivity].
Defined.

Lemma length_le_bytes n z : length (le_bytes n z) = n.
Proof. revert z. induction n as [|n IH]; intros z; simpl; [done|by rewrite IH]. Qed.

Lemma length_emit_x86_64 inst : (length (emit_x86_64 inst) <= 10)%nat.
Proof.
  unfold emit_x86_64.
  destruct (inst_opcode inst); simpl; try lia.
  destruct (value_is_constant (inst_src1 inst)); simpl; lia.
Qed.

Lemma length_emit_arm64 inst : (length (emit_arm64 inst) <= 2)%nat.
Proof. unfold emit_arm64. destruct (inst_opcode inst); simpl; lia. Qed.

Lemma length_concat_bound {A} (f : jit_instruction_t → list A) k insts :
  (∀ inst, length (f inst) <= k)%nat →
  (length (concat (map f insts)) <= k * length insts)%nat.
Proof.
  intros Hf. induction insts as [|inst rest IH]; simpl; [lia|].
  rewrite length_app. specialize (Hf inst). lia.
Qed.

Lemma length_codegen_x86_64 func :
  4 <= Z.of_nat (length (codegen_x86_64 func))
    <= code_size_bound JIT_ARCH_X86_64 (length (all_instructions func)).
Proof.
  rewrite codegen_x86_64_flat, length_app. simpl.
  pose proof (length_concat_bound emit_x86_64 10 (all_instructions func)
                length_emit_x86_64). lia.
Qed.

Lemma length_words_bytes ws :
  length (concat (map (le_bytes 4) ws)) = (4 * length ws)%nat.
Proof.
  induction ws as [|w ws IH]; [done|].
  cbn [map concat]. rewrite length_app, length_le_bytes, IH. simpl. lia.
Qed.

Lemma length_codegen_arm64 func :
  8 <= Z.of_nat (length (codegen_arm64 func))
    <= code_size_bound JIT_ARCH_ARM64 (length (all_instructions func)) ∧
  Z.of_nat (length (codegen_arm64 func)) mod 4 = 0.
Proof.
  unfold codegen_arm64. rewrite length_words_bytes, codegen_arm64_words_flat, length_app.
  simpl length.
  pose proof (length_concat_bound emit_arm64 2 (all_instructions func)
                length_emit_arm64).
  split; [simpl; lia|].
  rewrite Nat2Z.inj_mul. rewrite Z.mul_comm. apply Z.mod_mul. lia.
Qed.

Lemma length_all_instructions_optimised func :
  length (all_instructions (optimised func)) = length (all_instructions func).
Proof.
  unfold optimised.
  destruct (constant_folding_flat (eliminate_dead_code func)) as [-> _].
  pose proof (fold_insts_in_place
                (func_next_ssa_id (eliminate_dead_code func))
                (all_instructions (eliminate_dead_code func))) as H.
  apply Forall2_length in H. rewrite <- H.
  by rewrite eliminate_dead_code_spec, all_instructions_mark_func, length_map.
Qed.

(** X8.  How much code a compilation can store, and when it is safe.  A
    successful compilation of a function of [n] instructions stores at
    least the prologue (4 bytes on x86_64, 8 on ARM64) and at most
    [4 + 10 n] bytes on x86_64 and [8 + 8 n] bytes on ARM64, a multiple
    of 4 there.  Hence, if the cursor is inside the cache and that bound
    still fits behind it, every byte the compilation stores lies inside
    the code cache. *)
Theorem compile_within_bound_stays_in_cache
    (st : jit_state) (f : jit_function_t) (code : Z) :
  let ctx := g_jit_context st in
  let r := jit_function_compile st (Some f) in
  let bound := code_size_bound (ctx_target_arch ctx) (length (all_instructions f)) in
  res_code r = Some code →
  (4 <= Z.of_nat (length (res_written r)) <= bound) ∧
  (ctx_target_arch ctx = JIT_ARCH_ARM64 →
   8 <= Z.of_nat (length (res_written r)) ∧
   Z.of_nat (length (res_written r)) mod 4 = 0) ∧
  (0 <= ctx_code_ptr ctx →
   ctx_code_ptr ctx + bound <= ctx_code_cache_size ctx →
   Forall (in_code_cache st) (written_offsets st r)).
Proof.
  cbv zeta. intros Hr.
  destruct (jit_function_compile_cases st f)
    as [[_ Hc]|[(_ & _ & Hc)|(gen & _ & Hg & Hc)]];
    rewrite Hc in Hr; simpl in Hr; try discriminate Hr.
  assert (Hlen : 4 <= Z.of_nat (length (gen (optimised f)))
                   <= code_size_bound (ctx_target_arch (g_jit_context st))
                        (length (all_instructions f))
                 ∧ (ctx_target_arch (g_jit_context st) = JIT_ARCH_ARM64 →
                    8 <= Z.of_nat (length (gen (optimised f))) ∧
                    Z.of_nat (length (gen (optimised f))) mod 4 = 0)).
  { rewrite <- (length_all_instructions_optimised f).
    destruct (ctx_target_arch (g_jit_context st)); simpl in Hg;
      try discriminate Hg; injection Hg as <-.
    - split; [apply length_codegen_x86_64|discriminate].
    - destruct (length_codegen_arm64 (optimised f)) as [H1 H2].
      split; [lia|]. intros _. split; [lia|done]. }
  rewrite Hc. cbn [res_written]. destruct Hlen as [Hlen Harm].
  split; [done|]. split; [done|].
  intros H0 Hfit. apply Forall_forall. intros o Ho.
  apply written_offsets_range in Ho. cbn [res_written] in Ho.
  unfold in_code_cache. lia.
Qed.

Lemma compile_within_bound_stays_in_cache_witness :
  Forall (in_code_cache (ready_state JIT_ARCH_ARM64))
         (written_offsets (ready_state JIT_ARCH_ARM64)
            (jit_function_compile (ready_state JIT_ARCH_ARM64) (Some scenario2))).
Proof.
  refine (proj2 (proj2 (compile_within_bound_stays_in_cache
                          (ready_state JIT_ARCH_ARM64) scenario2 0 eq_refl)) _ _).
  - vm_compute. discriminate.
  - vm_compute. discriminate.
Defined.

(** ** Folding and code generation together *)

Lemma le_decode_le_bytes n z : le_decode (le_bytes n z) = z mod 2 ^ (8 * Z.of_nat n).
Proof.
  revert z. induction n as [|n IH]; intros z.
  - simpl. by rewrite Z.mod_1_r.
  - cbn [le_bytes le_decode]. rewrite IH.
    replace (8 * Z.of_nat (S n)) with (8 + 8 * Z.of_nat n) by lia.
    rewrite Z.pow_add_r by lia.
    change 255 with (Z.ones 8). rewrite Z.land_ones, Z.shiftr_div_pow2 by lia.
    change (2 ^ 8) with 256.
    rewrite Z.rem_mul_r; [done|lia|]. apply Z.pow_pos_nonneg; lia.
Qed.

Lemma wrap_i64_mod z : wrap_i64 z mod 2 ^ 64 = z mod 2 ^ 64.
Proof.
  unfold wrap_i64. rewrite Zminus_mod_idemp_l. f_equal. lia.
Qed.

Lemma wrap_i64_of_mod z : wrap_i64 (z mod 2 ^ 64) = wrap_i64 z.
Proof.
  unfold wrap_i64. rewrite Zplus_mod_idemp_l. done.
Qed.

Lemma fold_inst_foldable n inst :
  foldable inst = true →
  (fold_inst n inst).1
  = folded_to inst n
      (wrap_i64 (match inst_opcode inst with
                 | JIT_OP_ADD => value_constant_value (inst_src1 inst)
                                 + value_constant_value (inst_src2 inst)
                 | JIT_OP_SUB => value_constant_value (inst_src1 inst)
                                 - value_constant_value (inst_src2 inst)
                 | _ => value_constant_value (inst_src1 inst)
                        * value_constant_value (inst_src2 inst)
                 end)).
Proof.
  intros Hf. unfold foldable in Hf.
  apply andb_prop in Hf as [Hf H2]. apply andb_prop in Hf as [Hop H1].
  unfold fold_inst, folded_to. rewrite H1, H2.
  destruct (inst_opcode inst); try discriminate Hop; reflexivity.
Qed.

(** X9.  What the back ends make of a folded instruction.  If an Add, Sub
    or Mul has two constant operands [a] and [b], then after constant
    folding the x86_64 back end emits for it the ten bytes of
    [mov rax, imm64]: 48 B8 and eight bytes that are, read as a
    little-endian number, [a + b], [a - b] or [a * b] modulo 2^64, and
    read as a signed 64-bit number, the folded constant.  The ARM64 back
    end, which has no case for Mov, emits nothing for it, although it
    emitted one word for the instruction before folding. *)
Theorem folded_instruction_code (n : Z) (inst : jit_instruction_t) :
  foldable inst = true →
  let a := value_constant_value (inst_src1 inst) in
  let b := value_constant_value (inst_src2 inst) in
  let inst' := (fold_inst n inst).1 in
  take 2 (emit_x86_64 inst') = [0x48; 0xb8] ∧
  length (emit_x86_64 inst') = 10%nat ∧
  wrap_i64 (le_decode (drop 2 (emit_x86_64 inst')))
    = value_constant_value (inst_src1 inst') ∧
  (inst_opcode inst = JIT_OP_ADD →
   le_decode (drop 2 (emit_x86_64 inst')) = (a + b) mod 2 ^ 64) ∧
  (inst_opcode inst = JIT_OP_SUB →
   le_decode (drop 2 (emit_x86_64 inst')) = (a - b) mod 2 ^ 64) ∧
  (inst_opcode inst = JIT_OP_MUL →
   le_decode (drop 2 (emit_x86_64 inst')) = (a * b) mod 2 ^ 64) ∧
  length (emit_arm64 inst) = 1%nat ∧
  emit_arm64 inst' = [].
Proof.
  intros Hf. cbv zeta. rewrite (fold_inst_foldable n inst Hf).
  set (result := match inst_opcode inst with
                 | JIT_OP_ADD => _ | JIT_OP_SUB => _ | _ => _ end).
  assert (Hcode : emit_x86_64 (folded_to inst n (wrap_i64 result))
                  = [0x48; 0xb8] ++ le_bytes 8 (wrap_i64 result)) by reflexivity.
  rewrite Hcode.
  change (drop 2 ([0x48; 0xb8] ++ le_bytes 8 (wrap_i64 result)))
    with (le_bytes 8 (wrap_i64 result)).
  rewrite le_decode_le_bytes. change (2 ^ (8 * Z.of_nat 8)) with (2 ^ 64).
  rewrite wrap_i64_mod.
  split; [reflexivity|].
  split; [by rewrite length_app, length_le_bytes|].
  split; [cbn [inst_src1 folded_to value_constant_value];
          by rewrite wrap_i64_of_mod|].
  unfold foldable in Hf.
  apply andb_prop in Hf as [Hf _]. apply andb_prop in Hf as [Hop _].
  split; [intros Hopc; unfold result; by rewrite Hopc|].
  split; [intros Hopc; unfold result; by rewrite Hopc|].
  split; [intros Hopc; unfold result; by rewrite Hopc|].
  split; [|reflexivity].
  unfold emit_arm64. destruct (inst_opcode inst); try discriminate Hop; reflexivity.
Qed.

Lemma folded_instruction_code_witness :
  le_decode (drop 2 (emit_x86_64 (fold_inst 6 scenario2_add).1)) = 7.
Proof.
  exact (proj1 (proj2 (proj2 (proj2
           (folded_instruction_code 6 scenario2_add eq_refl)))) eq_refl).
Defined.

(** ** The two back ends *)

(** X10.  The two back ends never generate the same code: whatever the
    function, x86_64 code starts with the byte 55 and ARM64 code with the
    byte FD; compiled for the two targets, the same function ends up as
    the same IR and as different code. *)
Theorem back_ends_differ (f : jit_function_t) (st1 st2 : jit_state) :
  head (codegen_x86_64 f) = Some 0x55 ∧
  head (codegen_arm64 f) = Some 0xfd ∧
  (ctx_initialized (g_jit_context st1) = true →
   ctx_initialized (g_jit_context st2) = true →
   ctx_target_arch (g_jit_context st1) = JIT_ARCH_X86_64 →
   ctx_target_arch (g_jit_context st2) = JIT_ARCH_ARM64 →
   res_func (jit_function_compile st1 (Some f))
     = res_func (jit_function_compile st2 (Some f)) ∧
   res_written (jit_function_compile st1 (Some f))
     ≠ res_written (jit_function_compile st2 (Some f))).
Proof.
  split; [reflexivity|]. split; [reflexivity|].
  intros Hi1 Hi2 Ha1 Ha2.
  rewrite (compile_succeeds_regardless_of_cursor st1 f codegen_x86_64 Hi1)
    by (by rewrite Ha1).
  rewrite (compile_succeeds_regardless_of_cursor st2 f codegen_arm64 Hi2)
    by (by rewrite Ha2).
  split; [reflexivity|]. simpl. intros Heq.
  apply (f_equal head) in Heq. discriminate Heq.
Qed.

Lemma back_ends_differ_witness :
  res_written (jit_function_compile (ready_state JIT_ARCH_X86_64) (Some scenario1))
  ≠ res_written (jit_function_compile (ready_state JIT_ARCH_ARM64) (Some scenario1)).
Proof.
  exact (proj2 (proj2 (proj2 (back_ends_differ scenario1
           (ready_state JIT_ARCH_X86_64) (ready_state JIT_ARCH_ARM64)))
           eq_refl eq_refl eq_refl eq_refl)).
Defined.

(** ** Function objects built through the interface *)

Lemma add_instruction_entry_block_only func inst :
  entry_block_only func →
  entry_block_only (add_instruction func inst) ∧
  all_instructions (add_instruction func inst) = all_instructions func ++ [inst].
Proof.
  intros (b & Hb & Hc & Hn & Hnum). unfold add_instruction, all_instructions.
  rewrite Hb, Hc. simpl. split.
  - eexists. split; [reflexivity|]. split; [done|]. split; [done|].
    unfold block_append. simpl. rewrite Hnum. unfold wrap_u32.
    assert (length (match block_instructions b with
                    | [] => [inst]
                    | _ :: _ => block_instructions b ++ [inst]
                    end) = S (length (block_instructions b))) as ->.
    { destruct (block_instructions b); simpl; [done|]. rewrite length_app. simpl. lia. }
    rewrite Zplus_mod_idemp_l. f_equal. lia.
  - rewrite !app_nil_r. by destruct (block_instructions b).
Qed.

Lemma optimised_blocks func :
  Forall2 (same_block (λ old new, inst_dest new = inst_dest old))
          (func_blocks func) (func_blocks (optimised func)).
Proof.
  unfold optimised, constant_folding. rewrite eliminate_dead_code_spec.
  pose proof (fold_blocks_same_block (func_next_ssa_id (mark_func func))
                (func_blocks (mark_func func))) as H.
  destruct (fold_blocks _ _) as [blocks' n']. simpl in *.
  revert blocks' H. induction (func_blocks func) as [|b rest IH];
    intros blocks' H; inversion H as [|b1 b2 l1 l2 Hb Hrest]; subst; constructor.
  - destruct Hb as (H1 & H2 & H3 & H4). repeat split; try done. simpl in H4.
    clear -H4. revert H4. generalize (block_instructions b2).
    induction (block_instructions b) as [|inst insts IHi]; intros l H;
      inversion H as [|i1 i2 l1 l2 Hi Hl]; subst; constructor.
    + destruct Hi as [->|(fresh & result & ->)]; simpl;
        unfold mark; by destruct (dce_marks inst).
    + by apply IHi.
  - by apply IH.
Qed.

Lemma optimised_entry_block_only func :
  entry_block_only func → entry_block_only (optimised func).
Proof.
  intros (b & Hb & Hc & Hn & Hnum).
  pose proof (optimised_blocks func) as H. rewrite Hb in H.
  inversion H as [|b1 b2 l1 l2 (H1 & H2 & H3 & H4) Hrest]; subst.
  inversion Hrest; subst.
  exists b2. split; [done|].
  assert (func_current_block (optimised func) = func_current_block func
          ∧ func_num_blocks (optimised func) = func_num_blocks func) as [-> ->].
  { unfold optimised, constant_folding. rewrite eliminate_dead_code_spec.
    by destruct (fold_blocks _ _). }
  split; [done|]. split; [done|].
  rewrite H2, Hnum. by rewrite (Forall2_length _ _ _ H4).
Qed.

Lemma built_entry_block_only n func : built n func → entry_block_only func.
Proof.
  induction 1 as [st f Hf| | | | | | | | | | |];
    try (by apply add_instruction_entry_block_only);
    try (by apply optimised_entry_block_only).
  - unfold jit_function_create in Hf.
    destruct (ctx_initialized (g_jit_context st)); simpl in Hf; [|done].
    injection Hf as <-. eexists. by repeat split.
  - done.
  - done.
Qed.

(** X11.  Every function object obtained through the interface consists
    of its entry block alone, which is the block under the cursor:
    [jit_function_create], the builders and the passes never link a second
    block into the chain the passes and the code generators walk, and the
    instruction counter of the entry block is the length of its chain
    (modulo 2^32). *)
Theorem built_function_has_one_block (n : nat) (func : jit_function_t) :
  built n func →
  ∃ b, func_blocks func = [b] ∧
       func_current_block func = 0%nat ∧
       func_num_blocks func = 1 ∧
       all_instructions func = block_instructions b ∧
       block_num_instructions b
         = Z.of_nat (length (block_instructions b)) mod 2 ^ 32.
Proof.
  intros H. destruct (built_entry_block_only n func H) as (b & Hb & Hc & Hn & Hnum).
  exists b. repeat split; try done.
  unfold all_instructions. rewrite Hb. simpl. apply app_nil_r.
Qed.

Lemma built_scenario2 : built 5 scenario2.
Proof.
  pose proof (built_create (ready_state JIT_ARCH_X86_64) _ eq_refl) as H0.
  pose proof (built_constant _ _ JIT_TYPE_INT64 3 H0) as H1.
  pose proof (built_constant _ _ JIT_TYPE_INT64 4 H1) as H2.
  pose proof (built_add _ _ (mk_value 1 JIT_TYPE_INT64 true 3)
                (mk_value 2 JIT_TYPE_INT64 true 4) 0 H2) as H3.
  pose proof (built_constant _ _ JIT_TYPE_INT64 2 H3) as H4.
  pose proof (built_mul _ _ (mk_value 3 JIT_TYPE_INT64 false 0)
                (mk_value 4 JIT_TYPE_INT64 true 2) 0 H4) as H5.
  exact (built_return _ _ (mk_value 5 JIT_TYPE_INT64 false 0) H5).
Qed.

Lemma built_function_has_one_block_witness :
  ∃ b, func_blocks scenario2 = [b] ∧ func_current_block scenario2 = 0%nat.
Proof.
  destruct (built_function_has_one_block 5 scenario2 built_scenario2)
    as (b & Hb & Hc & _).
  by exists b.
Defined.

(** X12.  On a function object obtained through the interface every
    instruction builder appends exactly one instruction at the end of the
    program order and leaves the earlier instructions alone: the
    arithmetic builders and [jit_insn_load] an instruction whose
    destination is the value they return, typed like the left operand
    (Ptr for a load); the others an instruction without destination. *)
Theorem builders_append_in_program_order (n : nat) (func : jit_function_t) :
  built n func →
  (∀ left right indet,
     let result := mk_value (func_next_ssa_id func) (value_type left) false indet in
     (jit_insn_add func left right indet).1 = result ∧
     (jit_insn_sub func left right indet).1 = result ∧
     (jit_insn_mul func left right indet).1 = result ∧
     all_instructions (jit_insn_add func left right indet).2
       = all_instructions func
         ++ [mk_inst JIT_OP_ADD result left right None None false] ∧
     all_instructions (jit_insn_sub func left right indet).2
       = all_instructions func
         ++ [mk_inst JIT_OP_SUB result left right None None false] ∧
     all_instructions (jit_insn_mul func left right indet).2
       = all_instructions func
         ++ [mk_inst JIT_OP_MUL result left right None None false]) ∧
  (∀ address indet,
     all_instructions (jit_insn_load func address indet).2
       = all_instructions func
         ++ [mk_inst JIT_OP_LOAD (jit_insn_load func address indet).1
                     address zero_value None None false]) ∧
  (∀ address value,
     all_instructions (jit_insn_store func address value)
       = all_instructions func
         ++ [mk_inst JIT_OP_STORE zero_value address value None None false]) ∧
  (∀ target,
     all_instructions (jit_insn_branch func target)
       = all_instructions func
         ++ [mk_inst JIT_OP_BRANCH zero_value zero_value zero_value target None false]) ∧
  (∀ condition true_block false_block,
     all_instructions (jit_insn_branch_if func condition true_block false_block)
       = all_instructions func
         ++ [mk_inst JIT_OP_BRANCH_IF zero_value condition zero_value
                     true_block false_block false]) ∧
  (∀ value,
     all_instructions (jit_insn_return func value)
       = all_instructions func
         ++ [mk_inst JIT_OP_RETURN zero_value value zero_value None None false]).
Proof.
  intros H. apply built_entry_block_only in H.
  assert (Hnext : ∀ m, entry_block_only (set_next_ssa_id func m)
                       ∧ all_instructions (set_next_ssa_id func m)
                         = all_instructions func).
  { intros m. split; [|done]. destruct H as (b & ? & ? & ? & ?). by exists b. }
  assert (Happ : ∀ m inst,
            all_instructions (add_instruction (set_next_ssa_id func m) inst)
            = all_instructions func ++ [inst]).
  { intros m inst. destruct (Hnext m) as [H1 H2].
    rewrite <- H2. by apply add_instruction_entry_block_only. }
  split; [|split; [|split; [|split; [|split]]]].
  - intros left right indet. cbv zeta.
    split; [done|]. split; [done|]. split; [done|].
    split; [|split]; apply Happ.
  - intros address indet. apply Happ.
  - intros address value. by apply add_instruction_entry_block_only.
  - intros target. by apply add_instruction_entry_block_only.
  - intros condition tb fb. by apply add_instruction_entry_block_only.
  - intros value. by apply add_instruction_entry_block_only.
Qed.

Lemma builders_append_in_program_order_witness :
  all_instructions (jit_insn_return scenario2 zero_value)
  = all_instructions scenario2
    ++ [mk_inst JIT_OP_RETURN zero_value zero_value zero_value None None false].
Proof.
  exact (proj2 (proj2 (proj2 (proj2 (proj2
          (builders_append_in_program_order 5 scenario2 built_scenario2)))))
          zero_value).
Defined.

Lemma iter_bump k m :
  0 <= m → m + Z.of_nat k < 2 ^ 32 → Nat.iter k bump m = m + Z.of_nat k.
Proof.
  intros H0. induction k as [|k IH]; intros Hk; simpl; [lia|].
  rewrite IH by lia. unfold bump, wrap_u32. rewrite Z.mod_small; lia.
Qed.

Lemma dest_ids_app_instruction func inst :
  entry_block_only func →
  dest_ids (add_instruction func inst)
  = dest_ids func ++ (if decide (value_id (inst_dest inst) = 0) then []
                      else [value_id (inst_dest inst)]).
Proof.
  intros H. unfold dest_ids.
  rewrite (proj2 (add_instruction_entry_block_only func inst H)).
  rewrite map_app, filter_app. f_equal. simpl.
  destruct (decide (value_id (inst_dest inst) = 0)) as [Hz|Hz].
  - by rewrite filter_cons_False by (intros ?; done).
  - by rewrite filter_cons_True by done.
Qed.

Lemma dest_ids_optimised func : dest_ids (optimised func) = dest_ids func.
Proof.
  unfold dest_ids, all_instructions. f_equal.
  pose proof (optimised_blocks func) as H.
  induction H as [|b b' bs bs' (_ & _ & _ & Hb) _ IH]; [done|].
  simpl. rewrite !map_app, IH. f_equal.
  induction Hb as [|i i' l l' Hi _ IHl]; [done|]. simpl. by rewrite Hi, IHl.
Qed.

Lemma built_ssa n func :
  built n func →
  Z.of_nat n + 1 < 2 ^ 32 →
  func_next_ssa_id func = 1 + Z.of_nat n ∧
  StronglySorted Z.lt (dest_ids func) ∧
  Forall (λ i, 1 <= i <= Z.of_nat n) (dest_ids func).
Proof.
  assert (Hgrow : ∀ m (l : list Z),
            Forall (λ i, 1 <= i <= Z.of_nat m) l →
            Forall (λ i, 1 <= i <= Z.of_nat (S m)) l).
  { intros m l Hl. eapply Forall_impl; [exact Hl|]. intros i. simpl. lia. }
  assert (Hvalue : ∀ m f,
            built m f →
            (Z.of_nat m + 1 < 2 ^ 32 →
             func_next_ssa_id f = 1 + Z.of_nat m ∧
             StronglySorted Z.lt (dest_ids f) ∧
             Forall (λ i, 1 <= i <= Z.of_nat m) (dest_ids f)) →
            Z.of_nat (S m) + 1 < 2 ^ 32 →
            wrap_u32 (func_next_ssa_id f + 1) = 1 + Z.of_nat (S m) ∧
            StronglySorted Z.lt (dest_ids f) ∧
            Forall (λ i, 1 <= i <= Z.of_nat (S m)) (dest_ids f)).
  { intros m f _ IH Hm. destruct IH as (Hn & Hs & Hb); [lia|].
    rewrite Hn. unfold wrap_u32. rewrite Z.mod_small by lia.
    split; [lia|]. split; [done|by apply Hgrow]. }
  assert (Hinsn : ∀ m f ty indet inst,
            built m f →
            (Z.of_nat m + 1 < 2 ^ 32 →
             func_next_ssa_id f = 1 + Z.of_nat m ∧
             StronglySorted Z.lt (dest_ids f) ∧
             Forall (λ i, 1 <= i <= Z.of_nat m) (dest_ids f)) →
            Z.of_nat (S m) + 1 < 2 ^ 32 →
            value_id (inst_dest inst) = func_next_ssa_id f →
            let f' := add_instruction (jit_value_create f ty indet).2 inst in
            func_next_ssa_id f' = 1 + Z.of_nat (S m) ∧
            StronglySorted Z.lt (dest_ids f') ∧
            Forall (λ i, 1 <= i <= Z.of_nat (S m)) (dest_ids f')).
  { intros m f ty indet inst Hbuilt IH Hm Hid. cbv zeta.
    destruct (Hvalue m f Hbuilt IH Hm) as (Hn & Hs & Hb).
    destruct IH as (Hn0 & _ & Hb0); [lia|].
    split; [exact Hn|].
    rewrite dest_ids_app_instruction
      by (apply (built_entry_block_only (S m)), built_value, Hbuilt).
    change (dest_ids (jit_value_create f ty indet).2) with (dest_ids f).
    rewrite decide_False by lia. split.
    - apply StronglySorted_app_2; [|done|repeat constructor].
      intros x1 x2 Hx1 Hx2. apply list_elem_of_singleton in Hx2 as ->.
      rewrite Forall_forall in Hb0. specialize (Hb0 x1 Hx1). lia.
    - apply Forall_app. split; [done|]. repeat constructor; lia. }
  assert (Hplain : ∀ m f inst,
            built m f →
            value_id (inst_dest inst) = 0 →
            dest_ids (add_instruction f inst) = dest_ids f).
  { intros m f inst Hbuilt Hid.
    rewrite dest_ids_app_instruction by (by eapply built_entry_block_only).
    rewrite decide_True by done. apply app_nil_r. }
  induction 1 as [st f Hf
                 |m f ty indet Hb IH|m f ty c Hb IH
                 |m f l r indet Hb IH|m f l r indet Hb IH|m f l r indet Hb IH
                 |m f a indet Hb IH
                 |m f a v Hb IH|m f t Hb IH|m f c t e Hb IH|m f v Hb IH
                 |m f Hb IH]; intros Hn.
  - unfold jit_function_create in Hf.
    destruct (ctx_initialized (g_jit_context st)); simpl in Hf; [|done].
    injection Hf as <-. split; [done|]. split; constructor.
  - exact (Hvalue m f Hb IH Hn).
  - exact (Hvalue m f Hb IH Hn).
  - exact (Hinsn m f (value_type l) indet
             (binop_inst JIT_OP_ADD (jit_value_create f (value_type l) indet).1 l r)
             Hb IH Hn eq_refl).
  - exact (Hinsn m f (value_type l) indet
             (binop_inst JIT_OP_SUB (jit_value_create f (value_type l) indet).1 l r)
             Hb IH Hn eq_refl).
  - exact (Hinsn m f (value_type l) indet
             (binop_inst JIT_OP_MUL (jit_value_create f (value_type l) indet).1 l r)
             Hb IH Hn eq_refl).
  - exact (Hinsn m f JIT_TYPE_PTR indet
             (mk_inst JIT_OP_LOAD (jit_value_create f JIT_TYPE_PTR indet).1 a
                      zero_value None None false)
             Hb IH Hn eq_refl).
  - unfold jit_insn_store. rewrite (Hplain m) by done. by apply IH.
  - unfold jit_insn_branch. rewrite (Hplain m) by done. by apply IH.
  - unfold jit_insn_branch_if. rewrite (Hplain m) by done. by apply IH.
  - unfold jit_insn_return. rewrite (Hplain m) by done. by apply IH.
  - destruct IH as (Hnext & Hs & Hbd); [lia|].
    rewrite dest_ids_optimised, optimised_counter, Hnext.
    rewrite iter_bump by lia.
    split; [lia|]. split; [done|].
    eapply Forall_impl; [exact Hbd|]. intros i. simpl. lia.
Qed.

Lemma StronglySorted_lt_NoDup (l : list Z) : StronglySorted Z.lt l → NoDup l.
Proof.
  induction 1 as [|x l _ IH Hx]; constructor; [|done].
  intros Hin. rewrite Forall_forall in Hx. specialize (Hx x Hin). lia.
Qed.

(** X13.  Single assignment.  As long as fewer than 2^32 - 1 values have
    been drawn from a function's SSA counter (by the value and
    instruction builders and by the folds of its compilations), the
    counter is one more than their number and the destination ids of the
    function's instructions are strictly increasing in program order,
    all below the counter: no two instructions write the same value. *)
Theorem built_function_single_assignment (n : nat) (func : jit_function_t) :
  built n func →
  Z.of_nat n + 1 < 2 ^ 32 →
  func_next_ssa_id func = 1 + Z.of_nat n ∧
  StronglySorted Z.lt (dest_ids func) ∧
  NoDup (dest_ids func) ∧
  Forall (λ i, 1 <= i < func_next_ssa_id func) (dest_ids func).
Proof.
  intros Hb Hn. destruct (built_ssa n func Hb Hn) as (Hnext & Hs & Hbd).
  split; [done|]. split; [done|]. split; [by apply StronglySorted_lt_NoDup|].
  rewrite Hnext. eapply Forall_impl; [exact Hbd|]. intros i. simpl. lia.
Qed.

Lemma built_function_single_assignment_witness :
  func_next_ssa_id scenario2 = 6 ∧ NoDup (dest_ids scenario2).
Proof.
  assert (Hn : Z.of_nat 5 + 1 < 2 ^ 32) by (vm_compute; reflexivity).
  destruct (built_function_single_assignment 5 scenario2 built_scenario2 Hn)
    as (Hnext & _ & Hnd & _).
  split; [exact Hnext|exact Hnd].
Defined.

(** ** Freshness of the value a load returns *)

Lemma count_foldable_cons inst rest :
  count_foldable (inst :: rest)
  = if foldable inst then S (count_foldable rest) else count_foldable rest.
Proof. unfold count_foldable. simpl. by destruct (foldable inst). Qed.

Lemma length_fold_constants n insts :
  length (fold_constants n insts) = count_foldable insts.
Proof.
  revert n. induction insts as [|inst rest IH]; intros n; [done|].
  rewrite count_foldable_cons. simpl. destruct (fold_inst n inst) as [inst' n1].
  rewrite length_app, IH. by destruct (foldable inst).
Qed.

Lemma fold_constants_ids n insts :
  0 <= n →
  n + Z.of_nat (count_foldable insts) <= 2 ^ 32 →
  value_id <$> fold_constants n insts = seqZ n (Z.of_nat (count_foldable insts)).
Proof.
  revert n. induction insts as [|inst rest IH]; intros n H0 Hn; [done|].
  rewrite count_foldable_cons in *. simpl.
  pose proof (fold_inst_counter n inst) as Hc.
  pose proof (fold_inst_foldable n inst) as Hf.
  destruct (fold_inst n inst) as [inst' n1]. simpl in Hc, Hf.
  destruct (foldable inst); simpl; subst n1; [|by apply IH].
  rewrite Hf by done. simpl.
  rewrite Nat2Z.inj_succ, seqZ_cons by lia. rewrite Z.pred_succ. f_equal.
  destruct (count_foldable rest) as [|k] eqn:Hk.
  - pose proof (length_fold_constants (bump n) rest) as Hl.
    rewrite Hk in Hl. by destruct (fold_constants (bump n) rest).
  - unfold bump, wrap_u32. rewrite Z.mod_small by lia.
    replace (Z.succ n) with (n + 1) by lia. apply IH; lia.
Qed.

Lemma run_builder_call_built n f c :
  built n f →
  built (n + length (run_builder_call f c).1) (run_builder_call f c).2.
Proof.
  intros Hb.
  destruct c as [ty indet|ty k|l r indet|l r indet|l r indet|a indet
                |a v|t|cnd t e|v|]; simpl.
  - replace (n + 1)%nat with (S n) by lia. exact (built_value _ _ ty indet Hb).
  - replace (n + 1)%nat with (S n) by lia. exact (built_constant _ _ ty k Hb).
  - replace (n + 1)%nat with (S n) by lia. exact (built_add _ _ l r indet Hb).
  - replace (n + 1)%nat with (S n) by lia. exact (built_sub _ _ l r indet Hb).
  - replace (n + 1)%nat with (S n) by lia. exact (built_mul _ _ l r indet Hb).
  - replace (n + 1)%nat with (S n) by lia. exact (built_load _ _ a indet Hb).
  - rewrite Nat.add_0_r. exact (built_store _ _ a v Hb).
  - rewrite Nat.add_0_r. exact (built_branch _ _ t Hb).
  - rewrite Nat.add_0_r. exact (built_branch_if _ _ cnd t e Hb).
  - rewrite Nat.add_0_r. exact (built_return _ _ v Hb).
  - change (constant_folding (eliminate_dead_code f)) with (optimised f).
    rewrite length_fold_constants, eliminate_dead_code_spec,
      all_instructions_mark_func, count_foldable_mark, Nat.add_comm.
    by apply built_compiled.
Qed.

Lemma run_builder_call_ids n f c :
  built n f →
  Z.of_nat (n + length (run_builder_call f c).1) + 1 <= 2 ^ 32 →
  value_id <$> (run_builder_call f c).1
  = seqZ (1 + Z.of_nat n) (Z.of_nat (length (run_builder_call f c).1)).
Proof.
  intros Hb Hn.
  assert (Hone : length (run_builder_call f c).1 = 1%nat →
                 func_next_ssa_id f = 1 + Z.of_nat n).
  { intros Hl. rewrite Hl in Hn. apply (built_ssa n f Hb). lia. }
  destruct c; simpl in *; try done;
    try (by rewrite Hone by done).
  assert (Hcnt : func_next_ssa_id (eliminate_dead_code f) = func_next_ssa_id f)
    by (by rewrite eliminate_dead_code_spec).
  rewrite Hcnt in *. rewrite length_fold_constants in *.
  destruct (count_foldable (all_instructions (eliminate_dead_code f))) eqn:Hk.
  - pose proof (length_fold_constants (func_next_ssa_id f)
                  (all_instructions (eliminate_dead_code f))) as Hl.
    rewrite Hk in Hl. by destruct (fold_constants _ _).
  - destruct (built_ssa n f Hb) as (Hnext & _); [lia|].
    rewrite <- Hk, Hnext. apply fold_constants_ids; lia.
Qed.

Lemma run_builder_calls_drawn cs : ∀ n f,
  built n f →
  Z.of_nat (n + length (run_builder_calls f cs).1) + 1 <= 2 ^ 32 →
  built (n + length (run_builder_calls f cs).1) (run_builder_calls f cs).2 ∧
  value_id <$> (run_builder_calls f cs).1
  = seqZ (1 + Z.of_nat n) (Z.of_nat (length (run_builder_calls f cs).1)).
Proof.
  induction cs as [|c rest IH]; intros n f Hb Hn; simpl in *.
  - by rewrite Nat.add_0_r.
  - pose proof (run_builder_call_built n f c Hb) as Hb1.
    pose proof (run_builder_call_ids n f c Hb) as Hids.
    destruct (run_builder_call f c) as [vs f1]. simpl in *.
    specialize (IH (n + length vs)%nat f1 Hb1).
    destruct (run_builder_calls f1 rest) as [ws f2]. simpl in *.
    rewrite length_app in *.
    destruct IH as [Hb2 Hws]; [lia|]. split.
    + by rewrite Nat.add_assoc.
    + rewrite fmap_app, Hids, Hws by lia.
      rewrite !Nat2Z.inj_add, seqZ_app by lia. do 2 f_equal. lia.
Qed.

Lemma create_values_counter n func :
  0 <= func_next_ssa_id func < 2 ^ 32 →
  create_values n func
  = set_next_ssa_id func ((func_next_ssa_id func + Z.of_N n) mod 2 ^ 32).
Proof.
  intros Hc. unfold create_values.
  induction n as [|n IH] using N.peano_ind.
  - simpl. rewrite Z.add_0_r, Z.mod_small by lia. by destruct func.
  - rewrite N.iter_succ, IH.
    unfold jit_value_create, set_next_ssa_id. simpl. f_equal.
    unfold wrap_u32. rewrite Zplus_mod_idemp_l. f_equal. lia.
Qed.

(** C9 as stated fails: the destination is not always fresh.  In a fresh
    process, take the function [jit_function_create] returns, draw an
    address with [jit_value_create] and load from it: the load returns
    the value with id 2.  After 2^32 - 1 further calls of
    [jit_value_create] the [uint32_t] SSA counter of the function has
    wrapped and is 2 again: a second load returns the very value the
    first one returned, whose id is already the id of a destination of
    the function, and the function then has two loads that write value
    2.  Two calls earlier, at counter 0, the load returns the id of the
    absent value, and its instruction counts as one without
    destination. *)
Lemma jit_insn_load_repeats_id :
  (jit_function_create (ready_state JIT_ARCH_X86_64)).1 = Some empty_function ∧
  value_id load_once.1 = 2 ∧
  (load_again (2 ^ 32 - 1)).1 = load_once.1 ∧
  value_id (load_again (2 ^ 32 - 1)).1
    ∈ dest_ids (create_values (2 ^ 32 - 1) load_once.2) ∧
  dest_ids (load_again (2 ^ 32 - 1)).2 = [2; 2] ∧
  value_id (load_again (2 ^ 32 - 3)).1 = value_id zero_value ∧
  dest_ids (load_again (2 ^ 32 - 3)).2 = [2].
Proof.
  unfold load_again.
  rewrite !create_values_counter by (vm_compute; split; [discriminate|reflexivity]).
  replace (Z.of_N (2 ^ 32 - 1)) with (2 ^ 32 - 1) by reflexivity.
  replace (Z.of_N (2 ^ 32 - 3)) with (2 ^ 32 - 3) by reflexivity.
  replace ((func_next_ssa_id load_once.2 + (2 ^ 32 - 1)) mod 2 ^ 32) with 2
    by reflexivity.
  replace ((func_next_ssa_id load_once.2 + (2 ^ 32 - 3)) mod 2 ^ 32) with 0
    by reflexivity.
  repeat split; try reflexivity.
  vm_compute. apply list_elem_of_singleton. reflexivity.
Qed.

(** C9, amended.  For every function and every address value, of
    whatever type, [jit_insn_load] returns a value of type [Ptr] that is
    not a constant and whose id is the function's SSA counter, which the
    call post-increments; it appends to the block under the cursor one
    [Load] with that destination and the address as operand.  The value
    is fresh as long as the counter has not wrapped: if the function was
    obtained from [jit_function_create] by calls of the interface that
    drew fewer than 2^32 - 1 values from its counter (the values
    returned by the value and instruction builders and the constants
    made by the folds of its compilations), then those values have the
    ids 1, 2, ... in the order they were drawn, the load returns the next
    id, greater than all of them and than every destination id of the
    function, and becomes the function's last destination. *)
Theorem jit_insn_load_fresh
    (func : jit_function_t) (address : jit_value_t) (indet : Z) :
  let result := (jit_insn_load func address indet).1 in
  let func' := (jit_insn_load func address indet).2 in
  value_type result = JIT_TYPE_PTR ∧
  value_is_constant result = false ∧
  value_id result = func_next_ssa_id func ∧
  func_next_ssa_id func' = bump (func_next_ssa_id func) ∧
  func' = add_instruction
            (set_next_ssa_id func (bump (func_next_ssa_id func)))
            (mk_inst JIT_OP_LOAD result address zero_value None None false) ∧
  ∀ (st : jit_state) (func0 : jit_function_t) (cs : list builder_call)
    (drawn : list jit_value_t),
    (jit_function_create st).1 = Some func0 →
    run_builder_calls func0 cs = (drawn, func) →
    Z.of_nat (length drawn) + 1 < 2 ^ 32 →
    value_id <$> drawn = seqZ 1 (Z.of_nat (length drawn)) ∧
    value_id result = 1 + Z.of_nat (length drawn) ∧
    Forall (λ v, 1 <= value_id v < value_id result) drawn ∧
    Forall (λ i, 1 <= i < value_id result) (dest_ids func) ∧
    dest_ids func' = dest_ids func ++ [value_id result].
Proof.
  cbv zeta. repeat (split; [reflexivity|]).
  intros st func0 cs drawn Hcreate Hrun Hn.
  pose proof (run_builder_calls_drawn cs 0 func0 (built_create st func0 Hcreate))
    as Hd.
  rewrite Hrun in Hd. simpl in Hd. destruct Hd as [Hb Hids]; [lia|].
  change (1 + Z.of_nat 0) with 1 in Hids.
  destruct (built_ssa _ _ Hb Hn) as (Hnext & _ & Hdest).
  change (value_id (jit_insn_load func address indet).1)
    with (func_next_ssa_id func).
  rewrite Hnext. split; [exact Hids|]. split; [done|]. split; [|split].
  - assert (H : Forall (λ i, 1 <= i < 1 + Z.of_nat (length drawn))
                       (value_id <$> drawn)).
    { rewrite Hids. apply Forall_forall.
      intros i Hi. apply elem_of_seqZ in Hi. lia. }
    by apply Forall_fmap in H.
  - eapply Forall_impl; [exact Hdest|]. intros i. simpl. lia.
  - unfold jit_insn_load. simpl.
    rewrite dest_ids_app_instruction
      by (apply (built_entry_block_only (S (length drawn))),
            (built_value _ _ JIT_TYPE_PTR indet), Hb).
    change (dest_ids (set_next_ssa_id func _)) with (dest_ids func).
    simpl. rewrite Hnext. by rewrite decide_False by lia.
Qed.

Lemma jit_insn_load_fresh_witness :
  let result := (jit_insn_load scenario1 (mk_value 1 JIT_TYPE_INT32 false 0) 0).1 in
  value_type result = JIT_TYPE_PTR ∧
  value_id result = 4 ∧
  Forall (λ i, 1 <= i < value_id result) (dest_ids scenario1).
Proof.
  pose proof (jit_insn_load_fresh scenario1 (mk_value 1 JIT_TYPE_INT32 false 0) 0)
    as (Hty & _ & _ & _ & _ & Hfresh).
  assert (Hn : Z.of_nat (length [mk_value 1 JIT_TYPE_INT64 false 0;
                                 mk_value 2 JIT_TYPE_INT64 false 0;
                                 mk_value 3 JIT_TYPE_INT64 false 0]) + 1 < 2 ^ 32)
    by (vm_compute; reflexivity).
  destruct (Hfresh (ready_state JIT_ARCH_X86_64) empty_function
              [ValueCreate JIT_TYPE_INT64 0; ValueCreate JIT_TYPE_INT64 0;
               InsnAdd (mk_value 1 JIT_TYPE_INT64 false 0)
                       (mk_value 2 JIT_TYPE_INT64 false 0) 0;
               InsnReturn (mk_value 3 JIT_TYPE_INT64 false 0)]
              _ eq_refl eq_refl Hn)
    as (_ & Hid & _ & Hdest & _).
  split; [exact Hty|]. split; [exact Hid|exact Hdest].
Defined.

(** ** Initialisation, failure and teardown *)

Lemma uninitialised_refuses st :
  ctx_initialized (g_jit_context st) = false →
  jit_function_create st = (None, st) ∧
  ∀ func, jit_function_compile st func = mk_result None st func [].
Proof.
  intros Hi. unfold jit_function_create, jit_function_compile. rewrite Hi. simpl.
  split; [done|]. by intros [f|].
Qed.

(** X14.  Without an initialised context nothing is created or compiled.
    In a fresh process, after a [jit_init] whose mapping failed (it
    returns [JIT_ERROR_MEMORY]) and after [jit_cleanup],
    [jit_function_create] returns the null pointer and creates no block,
    and [jit_function_compile] returns the null pointer, stores nothing
    and leaves the function and the statics as they are.  Neither the
    failed initialisation nor the teardown touches the block counter. *)
Theorem no_context_no_compilation (st : jit_state) (target : jit_arch_t) :
  (jit_init target false st).1 = JIT_ERROR_MEMORY ∧
  block_id_counter (jit_init target false st).2 = block_id_counter st ∧
  block_id_counter (jit_cleanup st) = block_id_counter st ∧
  Forall (λ s, jit_function_create s = (None, s) ∧
               ∀ func, jit_function_compile s func = mk_result None s func [])
         [initial_state; (jit_init target false st).2; jit_cleanup st].
Proof.
  split; [done|]. split; [done|]. split; [done|].
  repeat (constructor; [by apply uninitialised_refuses|]). constructor.
Qed.

(** X15.  After a successful [jit_init] the cache is empty and a function
    can be created: the context is initialised for the target with the
    cursor at offset 0 of a 1 MiB cache, and [jit_function_create]
    returns a function whose entry block carries the current value of
    the block counter, whose SSA counter is 1 and whose register
    allocator knows the number of registers of the target, 16 for
    x86_64 and 32 for ARM64 and RISC-V.  A compilation of that empty
    function stores the prologue alone. *)
Theorem init_then_create (st : jit_state) (target : jit_arch_t) :
  let st1 := (jit_init target true st).2 in
  (jit_init target true st).1 = JIT_SUCCESS ∧
  g_jit_context st1 = mk_context target Mapped 0 (1024 * 1024) true ∧
  block_id_counter st1 = block_id_counter st ∧
  jit_function_create st1
  = (Some (mk_function [mk_block (block_id_counter st) [] 0 false] 0%nat 1 1
             (mk_reg_allocator [] [] 0
                (match target with JIT_ARCH_X86_64 => 16 | _ => 32 end))),
     (jit_block_create st1).2) ∧
  (∀ f, (jit_function_create st1).1 = Some f →
     res_written (jit_function_compile st1 (Some f))
     = match target with
       | JIT_ARCH_X86_64 => x86_64_prologue
       | JIT_ARCH_ARM64 => concat (map (le_bytes 4) arm64_prologue)
       | JIT_ARCH_RISCV64 => []
       end).
Proof.
  cbv zeta. split; [done|]. split; [done|]. split; [done|]. split.
  - by destruct target.
  - intros f Hf. destruct target; simpl in Hf; injection Hf as <-; reflexivity.
Qed.

Lemma init_then_create_witness :
  res_written (jit_function_compile (ready_state JIT_ARCH_ARM64) (Some
    (mk_function [mk_block 0 [] 0 false] 0%nat 1 1 (mk_reg_allocator [] [] 0 32))))
  = [0xfd; 0x7b; 0xbf; 0xa9; 0xfd; 0x03; 0x00; 0x91].
Proof.
  exact (proj2 (proj2 (proj2 (proj2 (init_then_create initial_state JIT_ARCH_ARM64))))
           _ eq_refl).
Defined.

(** * Further properties of jit_compiler.c *)

(** ** The emitters and the code buffer *)

Lemma emit_all_lookup bytes : ∀ ctx,
  buffer_ok ctx →
  let ctx' := emit_all ctx bytes in
  buffer_ok ctx' ∧
  Standalone.code_size ctx'
    = Z.min (Standalone.code_size ctx + Z.of_nat (length bytes))
            Standalone.CODE_BUFFER_SIZE ∧
  (∀ i : nat,
     Standalone.code_buffer ctx' !! i
     = if decide (Standalone.code_size ctx <= Z.of_nat i < Standalone.code_size ctx')
       then (wrap_u8 <$> bytes) !! (i - Z.to_nat (Standalone.code_size ctx))%nat
       else Standalone.code_buffer ctx !! i) ∧
  Standalone.blocks ctx' = Standalone.blocks ctx ∧
  Standalone.block_count ctx' = Standalone.block_count ctx ∧
  Standalone.next_ssa_id ctx' = Standalone.next_ssa_id ctx ∧
  Standalone.next_reg ctx' = Standalone.next_reg ctx.
Proof.
  assert (Hsize : Standalone.CODE_BUFFER_SIZE = 4096) by reflexivity.
  induction bytes as [|b bytes IH]; intros ctx [Hlen Hcs]; cbv zeta.
  - simpl. split; [done|]. split; [lia|]. split; [|done].
    intros i. rewrite decide_False by lia. done.
  - cbn [emit_all foldl]. fold (emit_all (Standalone.jit_emit_byte ctx b) bytes).
    destruct (decide (Standalone.code_size ctx < Standalone.CODE_BUFFER_SIZE)) as [Hlt|Hge].
    + rewrite emit_byte_in_range by lia.
      set (ctx1 := Standalone.mk_jit_context _ _ _ _ _ _).
      assert (Hok1 : buffer_ok ctx1).
      { split; simpl; [by rewrite length_insert|lia]. }
      destruct (IH ctx1 Hok1) as (Hok & Hcs' & Hlook & Hrest). cbv zeta in *.
      split; [done|]. simpl in Hcs'. simpl length.
      split; [lia|]. split; [|done].
      intros i. rewrite Hlook. simpl.
      destruct (decide (Standalone.code_size ctx + 1 <= Z.of_nat i
                        < Standalone.code_size (emit_all ctx1 bytes))) as [Hin|Hout].
      * rewrite decide_True by lia.
        replace (i - Z.to_nat (Standalone.code_size ctx))%nat
          with (S (i - Z.to_nat (Standalone.code_size ctx + 1))) by lia.
        done.
      * destruct (decide (Z.of_nat i = Standalone.code_size ctx)) as [Heq|Hne].
        -- rewrite decide_True by lia.
           replace i with (Z.to_nat (Standalone.code_size ctx)) by lia.
           rewrite list_lookup_insert_eq by lia.
           by rewrite Nat.sub_diag.
        -- rewrite decide_False by lia.
           rewrite list_lookup_insert_ne by lia. done.
    + unfold Standalone.jit_emit_byte. rewrite bool_decide_eq_false_2 by done.
      destruct (IH ctx (conj Hlen Hcs)) as (Hok & Hcs' & Hlook & Hrest).
      cbv zeta in *. split; [done|]. simpl length. split; [lia|]. split; [|done].
      intros i. rewrite Hlook. rewrite !decide_False by lia. done.
Qed.

Lemma emit_all_emits_at_most ctx bytes :
  buffer_ok ctx → emits_at_most (Z.of_nat (length bytes)) ctx (emit_all ctx bytes).
Proof.
  intros Hok. destruct (emit_all_lookup bytes ctx Hok) as (H1 & H2 & H3 & H4).
  split; [done|]. split; [done|]. split; [|done].
  intros i Hi. rewrite H3. destruct Hok as [_ Hcs]. rewrite decide_False; [done|lia].
Qed.

Lemma emit_all_emitted ctx bytes :
  buffer_ok ctx →
  Standalone.code_size ctx + Z.of_nat (length bytes) <= Standalone.CODE_BUFFER_SIZE →
  emitted_bytes ctx (emit_all ctx bytes) = wrap_u8 <$> bytes.
Proof.
  intros Hok Hroom. destruct (emit_all_lookup bytes ctx Hok) as (H1 & H2 & H3 & _).
  destruct Hok as [Hlen Hcs]. cbv zeta in *.
  unfold emitted_bytes. rewrite H2.
  replace (Z.min _ _) with (Standalone.code_size ctx + Z.of_nat (length bytes)) in * by lia.
  apply list_eq. intros i.
  destruct (decide (i < length bytes)%nat) as [Hi|Hi].
  - rewrite lookup_take_lt, lookup_drop, H3 by lia.
    rewrite decide_True by lia. f_equal. lia.
  - rewrite lookup_take_ge by lia. symmetry. apply lookup_ge_None.
    rewrite length_fmap. lia.
Qed.

Lemma emit_all_app ctx l1 l2 : emit_all ctx (l1 ++ l2) = emit_all (emit_all ctx l1) l2.
Proof. unfold emit_all. apply foldl_app. Qed.

Lemma jit_emit_dword_bytes ctx dword :
  Standalone.jit_emit_dword ctx dword = emit_all ctx (dword_bytes dword).
Proof. reflexivity. Qed.

Lemma jit_emit_qword_bytes ctx qword :
  Standalone.jit_emit_qword ctx qword = emit_all ctx (qword_bytes qword).
Proof.
  unfold Standalone.jit_emit_qword, qword_bytes. cbv zeta.
  by rewrite emit_all_app, !jit_emit_dword_bytes.
Qed.

Lemma jit_emit_mov_reg_imm_bytes ctx reg imm :
  Standalone.jit_emit_mov_reg_imm ctx reg imm = emit_all ctx (mov_reg_imm_bytes reg imm).
Proof.
  unfold Standalone.jit_emit_mov_reg_imm, mov_reg_imm_bytes. cbv zeta.
  by rewrite emit_all_app, jit_emit_qword_bytes.
Qed.

Lemma jit_emit_add_reg_reg_bytes ctx dst src :
  Standalone.jit_emit_add_reg_reg ctx dst src
  = emit_all ctx
      [Z.lor (Z.lor 0x48 (Z.land (Z.shiftr dst 3) 1))
             (Z.shiftl (Z.land (Z.shiftr src 3) 1) 2);
       0x01;
       Z.lor (Z.lor 0xC0 (Z.shiftl (Z.land src 7) 3)) (Z.land dst 7)].
Proof. reflexivity. Qed.

(** X16.  No emitter writes outside the code buffer or behind the write
    position.  Starting from a mapped buffer with the write position
    inside it, [jit_emit_byte], [jit_emit_dword], [jit_emit_qword],
    [jit_emit_mov_reg_imm], [jit_emit_add_reg_reg] and [jit_emit_ret]
    move the write position forward by 1, 4, 8, 10, 3 and 1 bytes but
    never beyond the end of the buffer: what does not fit is dropped
    without notice, so that an instruction can be cut short.  The buffer
    keeps its size, every byte before the old and from the new write
    position on is unchanged, and nothing else in the context changes. *)
Theorem emitters_stay_in_buffer
    (ctx : Standalone.jit_context_t) (byte dword qword reg imm dst src : Z) :
  buffer_ok ctx →
  emits_at_most 1 ctx (Standalone.jit_emit_byte ctx byte) ∧
  emits_at_most 4 ctx (Standalone.jit_emit_dword ctx dword) ∧
  emits_at_most 8 ctx (Standalone.jit_emit_qword ctx qword) ∧
  emits_at_most 10 ctx (Standalone.jit_emit_mov_reg_imm ctx reg imm) ∧
  emits_at_most 3 ctx (Standalone.jit_emit_add_reg_reg ctx dst src) ∧
  emits_at_most 1 ctx (Standalone.jit_emit_ret ctx) ∧
  (Standalone.code_size ctx = Standalone.CODE_BUFFER_SIZE →
   Standalone.jit_emit_byte ctx byte = ctx ∧
   Standalone.jit_emit_mov_reg_imm ctx reg imm = ctx ∧
   Standalone.jit_emit_add_reg_reg ctx dst src = ctx).
Proof.
  intros Hok.
  split; [exact (emit_all_emits_at_most ctx [byte] Hok)|].
  split; [rewrite jit_emit_dword_bytes;
          exact (emit_all_emits_at_most ctx (dword_bytes dword) Hok)|].
  split; [rewrite jit_emit_qword_bytes;
          exact (emit_all_emits_at_most ctx (qword_bytes qword) Hok)|].
  split; [rewrite jit_emit_mov_reg_imm_bytes;
          exact (emit_all_emits_at_most ctx (mov_reg_imm_bytes reg imm) Hok)|].
  split; [rewrite jit_emit_add_reg_reg_bytes;
          exact (emit_all_emits_at_most ctx _ Hok)|].
  split; [exact (emit_all_emits_at_most ctx [0xC3] Hok)|].
  intros Hfull.
  assert (Hb : ∀ b, Standalone.jit_emit_byte ctx b = ctx).
  { intros b. unfold Standalone.jit_emit_byte.
    rewrite bool_decide_eq_false_2; [done|lia]. }
  split; [apply Hb|].
  unfold Standalone.jit_emit_mov_reg_imm, Standalone.jit_emit_qword,
    Standalone.jit_emit_dword, Standalone.jit_emit_add_reg_reg.
  cbv zeta. by rewrite !Hb.
Qed.

Lemma emitters_stay_in_buffer_witness :
  Standalone.code_size
    (Standalone.jit_emit_mov_reg_imm
       (Standalone.set_code_size (Standalone.jit_create_context []) 4090)
       Standalone.RAX 7)
  = 4096.
Proof.
  assert (Hok : buffer_ok (Standalone.set_code_size (Standalone.jit_create_context []) 4090)).
  { split; [reflexivity|]. vm_compute. split; discriminate. }
  destruct (emitters_stay_in_buffer _ 0 0 0 Standalone.RAX 7 0 0 Hok)
    as (_ & _ & _ & (_ & Hcs & _) & _).
  exact Hcs.
Defined.

(** ** Immediates *)

Lemma le_bytes_mod n z : le_bytes n (z mod 2 ^ (8 * Z.of_nat n)) = le_bytes n z.
Proof.
  revert z. induction n as [|n IH]; intros z; [done|].
  cbn [le_bytes].
  replace (8 * Z.of_nat (S n)) with (8 + 8 * Z.of_nat n) by lia.
  rewrite Z.pow_add_r by lia. change (2 ^ 8) with 256.
  assert (Hpos : 0 < 2 ^ (8 * Z.of_nat n)) by (apply Z.pow_pos_nonneg; lia).
  rewrite Z.rem_mul_r by lia.
  change 255 with (Z.ones 8). rewrite !Z.land_ones, !Z.shiftr_div_pow2 by lia.
  change (2 ^ 8) with 256.
  set (hi := (z `div` 256) `mod` 2 ^ (8 * Z.of_nat n)).
  assert (H1 : (z `mod` 256 + 256 * hi) `mod` 256 = z `mod` 256).
  { rewrite (Z.mul_comm 256), Z.mod_add by lia. apply Z.mod_mod. lia. }
  assert (H2 : (z `mod` 256 + 256 * hi) `div` 256 = hi).
  { rewrite (Z.mul_comm 256), Z.div_add by lia.
    rewrite (Z.div_small (z `mod` 256)); [lia|]. apply Z.mod_pos_bound. lia. }
  rewrite H1, H2. f_equal. unfold hi. apply IH.
Qed.

Lemma le_bytes_app n m z :
  le_bytes (n + m) z = le_bytes n z ++ le_bytes m (Z.shiftr z (8 * Z.of_nat n)).
Proof.
  revert z. induction n as [|n IH]; intros z; [done|].
  cbn [Nat.add le_bytes app]. f_equal. rewrite IH. do 2 f_equal.
  rewrite Z.shiftr_shiftr by lia. f_equal. lia.
Qed.

Lemma dword_bytes_le dword : dword_bytes dword = le_bytes 4 dword.
Proof.
  unfold dword_bytes, wrap_u32. cbv zeta.
  rewrite <- (le_bytes_mod 4 dword). change (2 ^ (8 * Z.of_nat 4)) with (2 ^ 32).
  cbn [le_bytes]. by rewrite !Z.shiftr_shiftr by lia.
Qed.

Lemma qword_bytes_le qword : qword_bytes qword = le_bytes 8 qword.
Proof.
  unfold qword_bytes. cbv zeta. rewrite !dword_bytes_le.
  rewrite <- (le_bytes_mod 8 qword). change (2 ^ (8 * Z.of_nat 8)) with (2 ^ 64).
  change 8%nat with (4 + 4)%nat at 1. rewrite le_bytes_app.
  change 0xFFFFFFFF with (Z.ones 32). rewrite !Z.land_ones by lia.
  change (8 * Z.of_nat 4) with 32.
  by rewrite <- (le_bytes_mod 4 (qword mod 2 ^ 64)),
             <- (le_bytes_mod 4 (Z.shiftr (qword mod 2 ^ 64) 32)).
Qed.

Lemma wrap_u8_le_bytes n z : wrap_u8 <$> le_bytes n z = le_bytes n z.
Proof.
  revert z. induction n as [|n IH]; intros z; [done|].
  cbn [le_bytes fmap list_fmap]. f_equal; [|apply IH].
  unfold wrap_u8. change 255 with (Z.ones 8). rewrite Z.land_ones by lia.
  change (2 ^ 8) with 256. apply Z.mod_mod. lia.
Qed.

Lemma mov_prefix_bytes reg :
  0 <= reg < 16 →
  wrap_u8 (Z.lor 0x48 (Z.land (Z.shiftr reg 3) 1)) = 0x48 + reg `div` 8 ∧
  wrap_u8 (Z.lor 0xB8 (Z.land reg 7)) = 0xB8 + reg `mod` 8.
Proof.
  intros Hr.
  pose proof (all_register_pairs_sound
    (λ r _, bool_decide
              (wrap_u8 (Z.lor 0x48 (Z.land (Z.shiftr r 3) 1)) = 0x48 + r `div` 8 ∧
               wrap_u8 (Z.lor 0xB8 (Z.land r 7)) = 0xB8 + r `mod` 8))
    reg 0) as H.
  simpl in H. eapply bool_decide_eq_true_1, H; [by vm_compute|done|lia].
Qed.

(** X17.  The immediate move round trip.  With room for ten bytes,
    [jit_emit_mov_reg_imm] appends the REX prefix [48 + reg/8], the opcode
    [B8 + reg mod 8] and the eight bytes of the immediate, lowest first.
    Register and immediate can be read back from these bytes: the
    register is [8 * (prefix - 48) + (opcode - B8)], and the eight bytes
    denote the immediate modulo 2^64, that is the immediate itself when
    read as a signed 64-bit number.  For register RAX these are the ten
    bytes the x86_64 back end of the engine emits for a [Mov] of the
    same constant. *)
Theorem mov_reg_imm_round_trip
    (ctx : Standalone.jit_context_t) (reg imm : Z) :
  buffer_ok ctx →
  Standalone.code_size ctx + 10 <= Standalone.CODE_BUFFER_SIZE →
  0 <= reg < 16 →
  let bytes := emitted_bytes ctx (Standalone.jit_emit_mov_reg_imm ctx reg imm) in
  bytes = [0x48 + reg `div` 8; 0xB8 + reg `mod` 8] ++ le_bytes 8 imm ∧
  (∀ prefix opcode rest,
     bytes = prefix :: opcode :: rest →
     8 * (prefix - 0x48) + (opcode - 0xB8) = reg ∧
     le_decode rest = imm mod 2 ^ 64 ∧
     (- 2 ^ 63 <= imm < 2 ^ 63 → wrap_i64 (le_decode rest) = imm)) ∧
  (reg = Standalone.RAX →
   ∀ inst, inst_opcode inst = JIT_OP_MOV →
           value_is_constant (inst_src1 inst) = true →
           value_constant_value (inst_src1 inst) = imm →
           emit_x86_64 inst = bytes).
Proof.
  intros Hok Hroom Hreg. cbv zeta.
  assert (Hbytes : emitted_bytes ctx (Standalone.jit_emit_mov_reg_imm ctx reg imm)
                   = [0x48 + reg `div` 8; 0xB8 + reg `mod` 8] ++ le_bytes 8 imm).
  { rewrite jit_emit_mov_reg_imm_bytes, emit_all_emitted; [|done|].
    - unfold mov_reg_imm_bytes. rewrite fmap_app, qword_bytes_le, wrap_u8_le_bytes.
      destruct (mov_prefix_bytes reg Hreg) as [H1 H2].
      cbn [fmap list_fmap]. by rewrite H1, H2.
    - unfold mov_reg_imm_bytes. rewrite length_app, qword_bytes_le, length_le_bytes.
      simpl length. lia. }
  rewrite Hbytes. split; [done|]. split.
  - intros prefix opcode rest Heq.
    assert (prefix = 0x48 + reg `div` 8 ∧ opcode = 0xB8 + reg `mod` 8
            ∧ rest = le_bytes 8 imm) as (-> & -> & ->).
    { change ([0x48 + reg `div` 8; 0xB8 + reg `mod` 8] ++ le_bytes 8 imm)
        with (0x48 + reg `div` 8 :: 0xB8 + reg `mod` 8 :: le_bytes 8 imm) in Heq.
      by injection Heq. }
    split; [Z.to_euclidean_division_equations; lia|].
    rewrite le_decode_le_bytes. change (2 ^ (8 * Z.of_nat 8)) with (2 ^ 64).
    split; [done|]. intros Himm. rewrite wrap_i64_of_mod. by apply wrap_i64_small.
  - intros -> inst Hop Hc Hv. unfold emit_x86_64. rewrite Hop, Hc, Hv. reflexivity.
Qed.

Lemma mov_reg_imm_round_trip_witness :
  emitted_bytes (Standalone.jit_create_context [])
    (Standalone.jit_emit_mov_reg_imm (Standalone.jit_create_context []) Standalone.R9 (-2))
  = [0x49; 0xB9; 0xFE; 0xFF; 0xFF; 0xFF; 0xFF; 0xFF; 0xFF; 0xFF].
Proof.
  assert (Hok : buffer_ok (Standalone.jit_create_context [])).
  { split; [reflexivity|]. vm_compute. split; discriminate. }
  assert (Hroom : Standalone.code_size (Standalone.jit_create_context []) + 10
                  <= Standalone.CODE_BUFFER_SIZE) by (vm_compute; discriminate).
  assert (Hreg : 0 <= Standalone.R9 < 16) by (vm_compute; split; [discriminate|reflexivity]).
  exact (proj1 (mov_reg_imm_round_trip _ Standalone.R9 (-2) Hok Hroom Hreg)).
Defined.

(** ** More on the register allocator *)

Lemma allocation_targets_nil heap insts :
  (∀ inst p, inst ∈ insts → Standalone.dest inst = Some p → ¬ unassigned heap p) →
  allocation_targets heap insts = [].
Proof.
  intros H. unfold allocation_targets.
  assert (filter (unassigned heap) (omap Standalone.dest insts) = []) as ->; [|done].
  induction insts as [|inst rest IH]; [done|].
  simpl. destruct (Standalone.dest inst) as [p|] eqn:Hd; simpl.
  - rewrite filter_cons_False by (eapply H; [left|done]).
    apply IH. intros i q Hi. apply H. by right.
  - apply IH. intros i q Hi. apply H. by right.
Qed.

(** X18.  Register allocation is idempotent: while the counter does not
    overflow, running [jit_allocate_registers] a second time assigns
    nothing, and heap and context stay as the first run left them. *)
Theorem jit_allocate_registers_idempotent
    (heap : gmap N Standalone.ssa_value_t) (ctx : Standalone.jit_context_t) :
  let targets := allocation_targets heap (Standalone.visited_instructions ctx) in
  let heap' := (Standalone.jit_allocate_registers heap ctx).1 in
  let ctx' := (Standalone.jit_allocate_registers heap ctx).2 in
  0 <= Standalone.next_reg ctx →
  Standalone.next_reg ctx + Z.of_nat (length targets) < 2 ^ 31 →
  Standalone.jit_allocate_registers heap' ctx' = (heap', ctx').
Proof.
  intros targets heap' ctx' Hn Hlen.
  destruct (jit_allocate_registers_spec heap ctx Hn Hlen) as (H1 & _ & _ & H4).
  fold heap' ctx' targets in H1, H4.
  assert (Hvis : Standalone.visited_instructions ctx'
                 = Standalone.visited_instructions ctx).
  { unfold ctx', Standalone.jit_allocate_registers. by destruct (foldl _ _ _). }
  assert (Ht : allocation_targets heap' (Standalone.visited_instructions ctx') = []).
  { apply allocation_targets_nil. rewrite Hvis. exact H4. }
  assert (Hn' : 0 <= Standalone.next_reg ctx') by lia.
  destruct (allocate_fold_spec (Standalone.visited_instructions ctx') heap'
              (Standalone.next_reg ctx') Hn') as (F1 & _ & F3).
  { rewrite Ht. simpl. lia. }
  rewrite Ht in F1, F3. cbv zeta in F1, F3. simpl in F1.
  unfold Standalone.jit_allocate_registers at 1.
  destruct (foldl Standalone.allocate_inst (heap', Standalone.next_reg ctx')
              (Standalone.visited_instructions ctx')) as [h n'] eqn:Hf.
  simpl in F1, F3. f_equal.
  - apply map_eq. intros p. apply F3. apply not_elem_of_nil.
  - rewrite F1, Z.add_0_r. by destruct ctx'.
Qed.

Lemma jit_allocate_registers_idempotent_witness :
  let r := Standalone.jit_allocate_registers example_heap example_ctx in
  Standalone.jit_allocate_registers r.1 r.2 = r.
Proof.
  assert (H0 : 0 <= Standalone.next_reg example_ctx) by (vm_compute; discriminate).
  assert (H1 : Standalone.next_reg example_ctx
               + Z.of_nat (length (allocation_targets example_heap
                   (Standalone.visited_instructions example_ctx))) < 2 ^ 31)
    by (vm_compute; reflexivity).
  pose proof (jit_allocate_registers_idempotent example_heap example_ctx H0 H1) as H.
  cbv zeta in *. rewrite H. by destruct (Standalone.jit_allocate_registers _ _).
Defined.

Lemma available_regs_NoDup : NoDup Standalone.available_regs.
Proof. apply (bool_decide_unpack _). vm_compute. exact I. Qed.

Lemma round_robin_lookup k :
  Standalone.available_regs !! Z.to_nat (k `mod` 14) = Some (round_robin k).
Proof.
  unfold round_robin. change (Z.of_nat (length Standalone.available_regs)) with 14.
  destruct (Standalone.available_regs !! Z.to_nat (k `mod` 14)) eqn:E; [done|].
  apply lookup_ge_None in E. pose proof (Z.mod_pos_bound k 14). simpl in E. lia.
Qed.

Lemma round_robin_eq a b :
  round_robin a = round_robin b ↔ (a - b) `mod` 14 = 0.
Proof.
  pose proof (round_robin_lookup a) as Ha. pose proof (round_robin_lookup b) as Hb.
  pose proof (Z.mod_pos_bound a 14). pose proof (Z.mod_pos_bound b 14).
  split.
  - intros Heq. rewrite Heq in Ha.
    pose proof (NoDup_lookup _ _ _ _ available_regs_NoDup Ha Hb).
    Z.to_euclidean_division_equations. lia.
  - intros Hm.
    assert (a `mod` 14 = b `mod` 14) as Heq by (Z.to_euclidean_division_equations; lia).
    rewrite Heq in Ha. congruence.
Qed.

(** X19.  There is no spilling: registers are shared modulo 14.  While
    the counter does not overflow, two values that get a register in the
    same run of [jit_allocate_registers] get the same register exactly if
    their positions among the values to allocate differ by a multiple of
    14; in particular up to 14 values get pairwise different registers,
    and the fifteenth shares the register of the first. *)
Theorem registers_shared_modulo_14
    (heap : gmap N Standalone.ssa_value_t) (ctx : Standalone.jit_context_t)
    (i j : nat) (p q : N) (vp vq : Standalone.ssa_value_t) :
  let targets := allocation_targets heap (Standalone.visited_instructions ctx) in
  let heap' := (Standalone.jit_allocate_registers heap ctx).1 in
  0 <= Standalone.next_reg ctx →
  Standalone.next_reg ctx + Z.of_nat (length targets) < 2 ^ 31 →
  targets !! i = Some p → targets !! j = Some q →
  heap' !! p = Some vp → heap' !! q = Some vq →
  (Standalone.data_reg vp = Standalone.data_reg vq
   ↔ (Z.of_nat i - Z.of_nat j) `mod` 14 = 0).
Proof.
  intros targets heap' Hn Hlen Hi Hj Hp Hq.
  destruct (jit_allocate_registers_spec heap ctx Hn Hlen) as (_ & H2 & _).
  destruct (H2 i p Hi) as (v1 & _ & Hv1). destruct (H2 j q Hj) as (v2 & _ & Hv2).
  fold heap' in Hv1, Hv2. rewrite Hp in Hv1. rewrite Hq in Hv2.
  injection Hv1 as ->. injection Hv2 as ->. simpl.
  rewrite round_robin_eq.
  replace (Standalone.next_reg ctx + Z.of_nat i - (Standalone.next_reg ctx + Z.of_nat j))
    with (Z.of_nat i - Z.of_nat j) by lia.
  done.
Qed.

Lemma registers_shared_modulo_14_witness :
  ∃ vp vq,
    (Standalone.jit_allocate_registers fifteen_values fifteen_ctx).1 !! 0%N = Some vp ∧
    (Standalone.jit_allocate_registers fifteen_values fifteen_ctx).1 !! 14%N = Some vq ∧
    Standalone.data_reg vp = Standalone.data_reg vq.
Proof.
  exists (Standalone.mk_ssa_value 0 0 Standalone.RAX),
         (Standalone.mk_ssa_value 14 0 Standalone.RAX).
  assert (Hp : (Standalone.jit_allocate_registers fifteen_values fifteen_ctx).1 !! 0%N
               = Some (Standalone.mk_ssa_value 0 0 Standalone.RAX))
    by (vm_compute; reflexivity).
  assert (Hq : (Standalone.jit_allocate_registers fifteen_values fifteen_ctx).1 !! 14%N
               = Some (Standalone.mk_ssa_value 14 0 Standalone.RAX))
    by (vm_compute; reflexivity).
  split; [exact Hp|]. split; [exact Hq|].
  assert (H0 : 0 <= Standalone.next_reg fifteen_ctx) by (vm_compute; discriminate).
  assert (H1 : Standalone.next_reg fifteen_ctx
               + Z.of_nat (length (allocation_targets fifteen_values
                   (Standalone.visited_instructions fifteen_ctx))) < 2 ^ 31)
    by (vm_compute; reflexivity).
  apply (registers_shared_modulo_14 fifteen_values fifteen_ctx 0 14 0%N 14%N _ _
           H0 H1 eq_refl eq_refl Hp Hq).
  reflexivity.
Defined.

(** ** The add function *)

Lemma lookup_drop_eq (l1 l2 : list Z) (k : nat) :
  length l1 = length l2 →
  (∀ i : nat, (k <= i)%nat → l1 !! i = l2 !! i) → drop k l1 = drop k l2.
Proof.
  intros Hlen H. apply list_eq. intros i. rewrite !lookup_drop. apply H. lia.
Qed.

Lemma emit_all_cons ctx b bytes :
  emit_all ctx (b :: bytes) = emit_all (Standalone.jit_emit_byte ctx b) bytes.
Proof. reflexivity. Qed.

Lemma emit_all_nil ctx : emit_all ctx [] = ctx.
Proof. reflexivity. Qed.

Lemma emit_all_from_start ctx bytes :
  buffer_ok ctx →
  Standalone.code_size ctx = 0 →
  Z.of_nat (length bytes) <= Standalone.CODE_BUFFER_SIZE →
  Standalone.code_size (emit_all ctx bytes) = Z.of_nat (length bytes) ∧
  take (length bytes) (Standalone.code_buffer (emit_all ctx bytes)) = wrap_u8 <$> bytes ∧
  drop (length bytes) (Standalone.code_buffer (emit_all ctx bytes))
    = drop (length bytes) (Standalone.code_buffer ctx) ∧
  Standalone.next_reg (emit_all ctx bytes) = Standalone.next_reg ctx.
Proof.
  intros Hok H0 Hroom.
  destruct (emit_all_lookup bytes ctx Hok)
    as ((Hlen' & _) & Hcs & Hlook & _ & _ & _ & Hreg).
  cbv zeta in *. rewrite H0 in Hcs, Hlook.
  assert (Hcs' : Standalone.code_size (emit_all ctx bytes) = Z.of_nat (length bytes))
    by lia.
  rewrite Hcs' in Hlook. destruct Hok as [Hlen _].
  split; [exact Hcs'|]. split; [|split; [|exact Hreg]].
  - apply list_eq. intros i.
    destruct (decide (i < length bytes)%nat) as [Hi|Hi].
    + rewrite lookup_take_lt, Hlook by lia. rewrite decide_True by lia.
      f_equal. lia.
    + rewrite lookup_take_ge by lia. symmetry. apply lookup_ge_None.
      rewrite length_fmap. lia.
  - apply lookup_drop_eq; [by rewrite Hlen', Hlen|].
    intros i Hi. rewrite Hlook. rewrite decide_False by lia. done.
Qed.

(** What [jit_compile_add_function] amounts to: three values on the
    heap, a register allocation that finds nothing to do, and twelve
    bytes emitted from the start of the buffer. *)
Lemma jit_compile_add_function_run heap ctx a1 a2 a3 t1 t2 t3 :
  Standalone.jit_compile_add_function heap ctx a1 a2 a3 t1 t2 t3
  = (<[a3 := Standalone.mk_ssa_value
               (wrap_i32 (wrap_i32 (Standalone.next_ssa_id ctx + 1) + 1)) t3
               Standalone.RAX]>
       (<[a2 := Standalone.mk_ssa_value
                  (wrap_i32 (Standalone.next_ssa_id ctx + 1)) t2 Standalone.RSI]>
          (<[a1 := Standalone.mk_ssa_value (Standalone.next_ssa_id ctx) t1
                     Standalone.RDI]> heap)),
     emit_all
       (Standalone.mk_jit_context
          [Standalone.mk_basic_block 0
             [Standalone.mk_ssa_instruction Standalone.IR_ADD
                (Some a3) (Some a1) (Some a2);
              Standalone.mk_ssa_instruction Standalone.IR_RET
                None (Some a3) None]]
          1 (Standalone.code_buffer ctx) 0
          (wrap_i32 (wrap_i32 (wrap_i32 (Standalone.next_ssa_id ctx + 1) + 1) + 1))
          (Standalone.next_reg ctx))
       [0x55; 0x48; 0x89; 0xE5; 0x48; 0x89; 0xF8; 0x48; 0x01; 0xF0; 0x5D; 0xC3]).
Proof.
  rewrite !emit_all_cons, emit_all_nil.
  unfold Standalone.jit_compile_add_function,
    Standalone.jit_eliminate_dead_code, Standalone.jit_constant_propagation,
    Standalone.jit_emit_ret.
  cbv zeta.
  set (heap3 := <[a3 := _]> (<[a2 := _]> (<[a1 := _]> heap))).
  set (ctx1 := Standalone.mk_jit_context _ 1 (Standalone.code_buffer ctx)
                 (Standalone.code_size ctx) _ _).
  assert (Halloc : Standalone.jit_allocate_registers heap3 ctx1 = (heap3, ctx1)).
  { assert (Hl : heap3 !! a3
                 = Some (Standalone.mk_ssa_value
                           (wrap_i32 (wrap_i32 (Standalone.next_ssa_id ctx + 1) + 1))
                           t3 Standalone.RAX))
      by (unfold heap3; apply lookup_insert_eq).
    unfold Standalone.jit_allocate_registers, Standalone.visited_instructions.
    simpl. rewrite Hl. reflexivity. }
  rewrite Halloc. reflexivity.
Qed.

(** X20.  [jit_compile_add_function] always produces the same twelve
    bytes at the start of the code buffer, wherever the write position
    stood before: push rbp; mov rbp, rsp; mov rax, rdi; add rax, rsi;
    pop rbp; ret.  It resets the write position, so a second call
    overwrites the first instead of appending.  Its three values keep the
    registers they were created with (RDI, RSI, RAX), the register
    allocation it runs assigns nothing and leaves its counter alone, and
    the rest of the buffer is untouched. *)
Theorem jit_compile_add_function_code
    (heap : gmap N Standalone.ssa_value_t) (ctx : Standalone.jit_context_t)
    (a1 a2 a3 : N) (t1 t2 t3 : Z) :
  let heap' := (Standalone.jit_compile_add_function heap ctx a1 a2 a3 t1 t2 t3).1 in
  let ctx' := (Standalone.jit_compile_add_function heap ctx a1 a2 a3 t1 t2 t3).2 in
  length (Standalone.code_buffer ctx) = Z.to_nat Standalone.CODE_BUFFER_SIZE →
  a1 ≠ a2 → a1 ≠ a3 → a2 ≠ a3 →
  Standalone.code_size ctx' = 12 ∧
  take 12 (Standalone.code_buffer ctx')
    = [0x55; 0x48; 0x89; 0xE5; 0x48; 0x89; 0xF8; 0x48; 0x01; 0xF0; 0x5D; 0xC3] ∧
  drop 12 (Standalone.code_buffer ctx') = drop 12 (Standalone.code_buffer ctx) ∧
  Standalone.next_reg ctx' = Standalone.next_reg ctx ∧
  (Standalone.data_reg <$> heap' !! a1) = Some Standalone.RDI ∧
  (Standalone.data_reg <$> heap' !! a2) = Some Standalone.RSI ∧
  (Standalone.data_reg <$> heap' !! a3) = Some Standalone.RAX ∧
  (∀ p, p ≠ a1 → p ≠ a2 → p ≠ a3 → heap' !! p = heap !! p).
Proof.
  intros heap' ctx' Hlen H12 H13 H23. unfold heap', ctx'.
  rewrite jit_compile_add_function_run. cbn [fst snd].
  set (ctx0 := Standalone.mk_jit_context _ 1 (Standalone.code_buffer ctx) 0 _ _).
  set (bytes := [0x55; 0x48; 0x89; 0xE5; 0x48; 0x89; 0xF8; 0x48; 0x01; 0xF0; 0x5D; 0xC3]).
  assert (Hok0 : buffer_ok ctx0).
  { split; [exact Hlen|]. simpl. unfold Standalone.CODE_BUFFER_SIZE. lia. }
  assert (Hroom : Z.of_nat (length bytes) <= Standalone.CODE_BUFFER_SIZE)
    by (vm_compute; discriminate).
  destruct (emit_all_from_start ctx0 bytes Hok0 eq_refl Hroom)
    as (Hcs & Htake & Hdrop & Hreg).
  split; [exact Hcs|]. split; [exact Htake|]. split; [exact Hdrop|].
  split; [exact Hreg|].
  split; [by rewrite lookup_insert_ne, lookup_insert_ne, lookup_insert_eq by done|].
  split; [by rewrite lookup_insert_ne, lookup_insert_eq by done|].
  split; [by rewrite lookup_insert_eq|].
  intros p Hp1 Hp2 Hp3. by rewrite !lookup_insert_ne by done.
Qed.

Lemma jit_compile_add_function_code_witness :
  Standalone.code_size
    (Standalone.jit_compile_add_function ∅
       (Standalone.set_code_size (Standalone.jit_create_context []) 100)
       1%N 2%N 3%N 0 0 0).2 = 12.
Proof.
  refine (proj1 (jit_compile_add_function_code ∅
            (Standalone.set_code_size (Standalone.jit_create_context []) 100)
            1%N 2%N 3%N 0 0 0 _ _ _ _)); [reflexivity|discriminate..].
Defined.
